(** * Voice typing: the audio segmentation pipeline of enhanced-voice-typing.py

    A shallow embedding of class [VoiceTyping]: the pre-recording deque, the
    Idle/Recording loop of [run], the assembler [process_audio] and the
    text injection [type_text], followed by the properties of the
    specification that concern them. *)

From Stdlib Require Import ZArith QArith Qround String Ascii Strings.Byte Bool Lia PeanoNat List.
Import ListNotations.

Set Implicit Arguments.

(** ** Python primitives used by the program *)

Module Py.

(** [int(x)] on a number: truncation toward zero. *)
Definition int (q : Q) : Z := Z.quot (Qnum q) (Zpos (Qden q)).

Definition Qlt_bool (x y : Q) : bool := negb (Qle_bool y x).

(** The exceptions the program distinguishes: [run] catches
    [KeyboardInterrupt] by name, the bare [except:] clauses catch
    everything. *)
Inductive exn : Type :=
| KeyboardInterrupt
| SystemExit
| ValueError (msg : string)
| Exception (msg : string).

(** [collections.deque(maxlen=n)]. *)
Record deque (A : Type) : Type := Deque { maxlen : nat; items : list A }.

Definition deque_new (A : Type) (n : nat) : deque A := Deque n [].

(** [d.append(x)]: the item is added on the right, and when the size then
    exceeds [maxlen] one item is removed on the left. *)
Definition deque_append (A : Type) (d : deque A) (x : A) : deque A :=
  let grown := items d ++ [x] in
  Deque (maxlen d)
        (if (maxlen d <? length grown)%nat then tl grown else grown).

(** [bytes] objects. *)
Definition bytes : Type := list byte.

(** [b''.join(l)]. *)
Definition bytes_join (l : list bytes) : bytes := List.concat l.

(** One little-endian signed 16-bit sample. *)
Definition int16_le (lo hi : byte) : Z :=
  let u := (Z.of_N (Byte.to_N lo) + 256 * Z.of_N (Byte.to_N hi))%Z in
  if (u <? 32768)%Z then u else (u - 65536)%Z.

(** [np.frombuffer(buf, dtype=np.int16)]; a buffer of odd size is refused. *)
Fixpoint frombuffer_int16 (buf : bytes) : exn + list Z :=
  match buf with
  | [] => inr []
  | [_] => inl (ValueError "buffer size must be a multiple of element size")
  | lo :: hi :: rest =>
      match frombuffer_int16 rest with
      | inl e => inl e
      | inr l => inr (int16_le lo hi :: l)
      end
  end.

(** [str.isspace] on one character; a character of [string] stands for the
    code point of the same number. *)
Definition isspace (c : ascii) : bool :=
  let n := nat_of_ascii c in
  ((9 <=? n) && (n <=? 13) || (28 <=? n) && (n <=? 32)
   || (n =? 133) || (n =? 160))%nat.

Fixpoint lstrip (s : string) : string :=
  match s with
  | EmptyString => EmptyString
  | String c s' => if isspace c then lstrip s' else s
  end.

Fixpoint rstrip (s : string) : string :=
  match s with
  | EmptyString => EmptyString
  | String c s' =>
      match rstrip s' with
      | EmptyString => if isspace c then EmptyString else String c EmptyString
      | r => String c r
      end
  end.

(** [s.strip()]. *)
Definition strip (s : string) : string := rstrip (lstrip s).

(** Truth value of a [str]: non-empty. *)
Definition truthy (s : string) : bool :=
  match s with EmptyString => false | String _ _ => true end.

(** [sep.join(l)]. *)
Definition join (sep : string) (l : list string) : string := String.concat sep l.

End Py.

Import Py.

(** ** Configuration set in [__init__] *)

Definition RATE : Z := 16000.
Definition CHUNK_DURATION_MS : Z := 30.
Definition CHUNK_SIZE : Z := int (inject_Z (RATE * CHUNK_DURATION_MS) / 1000).
Definition PRE_BUFFER_DURATION_SEC : Q := 15 # 10.
Definition BUFFER_DURATION_SEC : Q := 4.
(** The literal [0.8]. The comparison it is used in has on its other side
    [k * 30 / 1000] for an integer [k]; no such quotient lies within a
    rounding error of 0.8, so the comparison of the two doubles and the
    comparison of the two exact numbers agree. *)
Definition SILENCE_DURATION_SEC : Q := 8 # 10.

(** [maxlen] of the pre-recording deque. *)
Definition PRE_BUFFER_MAXLEN : nat :=
  Z.to_nat (int (PRE_BUFFER_DURATION_SEC * inject_Z RATE / inject_Z CHUNK_SIZE)).

(** One read of the stream: [CHUNK_SIZE] frames of one 16-bit channel. *)
Definition chunk : Type := bytes.

Definition chunk_ok (c : chunk) : Prop := length c = Z.to_nat (2 * CHUNK_SIZE).

(** ** The fields of [self] that the main loop reads and writes *)

Record VoiceTyping : Type := mkVoiceTyping {
  pre_buffer : deque chunk;
  recording_buffer : list chunk;
  is_recording : bool;
  silence_chunks : Z
}.

(** State left by [__init__]. *)
Definition init : VoiceTyping :=
  {| pre_buffer := deque_new chunk PRE_BUFFER_MAXLEN;
     recording_buffer := [];
     is_recording := false;
     silence_chunks := 0 |}.

Definition set_pre_buffer (self : VoiceTyping) (d : deque chunk) : VoiceTyping :=
  {| pre_buffer := d;
     recording_buffer := recording_buffer self;
     is_recording := is_recording self;
     silence_chunks := silence_chunks self |}.

Definition set_recording_buffer (self : VoiceTyping) (b : list chunk) : VoiceTyping :=
  {| pre_buffer := pre_buffer self;
     recording_buffer := b;
     is_recording := is_recording self;
     silence_chunks := silence_chunks self |}.

Definition set_is_recording (self : VoiceTyping) (r : bool) : VoiceTyping :=
  {| pre_buffer := pre_buffer self;
     recording_buffer := recording_buffer self;
     is_recording := r;
     silence_chunks := silence_chunks self |}.

Definition set_silence_chunks (self : VoiceTyping) (n : Z) : VoiceTyping :=
  {| pre_buffer := pre_buffer self;
     recording_buffer := recording_buffer self;
     is_recording := is_recording self;
     silence_chunks := n |}.

(** ** What the program does to the outside *)

(** A segment returned by the transcription engine; only its text is read. *)
Record Segment : Type := mkSegment { text : string }.

(** The lines the program prints. *)
Inductive message : Type :=
| MsgBanner                      (* the three lines printed when [run] starts *)
| MsgMic                         (* the microphone mark printed on onset *)
| MsgProcessing                  (* "[processing] " *)
| MsgTyped (t : string)          (* the check mark followed by the text *)
| MsgFailedToType (t : string)   (* "Failed to type: " followed by the text *)
| MsgStopped.                    (* the line printed by [cleanup] *)

Inductive event : Type :=
| Print (m : message)
| Transcribe (audio_np : list Q) (language : string)
| SubprocessRun (argv : list string)
| StopStream
| CloseStream
| Terminate.

(** What one [audio_queue.get(timeout=0.1)] of the main loop yields: nothing
    within the timeout, a chunk (with the verdict the voice-activity
    detector gives on it), or an exception delivered while waiting. *)
Inductive poll : Type :=
| QueueEmpty
| Got (c : chunk) (is_speech : bool)
| Interrupt (e : exn).

Section Pipeline.

(** The collaborators: the state of everything outside the program, the
    transcription engine and the process launcher. Each call may change
    the outside and may raise. *)
Variable World : Type.
Variable model_transcribe : list Q -> string -> World -> World * (exn + list Segment).
Variable subprocess_run : list string -> World -> World * (exn + unit).
Variable language : string.

(** Computations of the program: they act on the outside, leave a trace of
    events, and return or raise. *)
Definition M (A : Type) : Type := World -> World * list event * (exn + A).

Definition ret (A : Type) (a : A) : M A := fun w => (w, [], inr a).

Definition raise (A : Type) (e : exn) : M A := fun w => (w, [], inl e).
Arguments raise {A} e.

Definition bind (A B : Type) (c : M A) (k : A -> M B) : M B :=
  fun w =>
    match c w with
    | (w1, t1, inl e) => (w1, t1, inl e)
    | (w1, t1, inr a) =>
        match k a w1 with
        | (w2, t2, r) => (w2, t1 ++ t2, r)
        end
    end.

Definition emit (ev : event) : M unit := fun w => (w, [ev], inr tt).

(** [try: c  except: h]. *)
Definition try_except (A : Type) (c : M A) (h : exn -> M A) : M A :=
  fun w =>
    match c w with
    | (w1, t1, inr a) => (w1, t1, inr a)
    | (w1, t1, inl e) =>
        match h e w1 with
        | (w2, t2, r) => (w2, t1 ++ t2, r)
        end
    end.

(** [try: c  finally: f]. *)
Definition try_finally (A : Type) (c : M A) (f : M unit) : M A :=
  fun w =>
    match c w with
    | (w1, t1, r) =>
        match f w1 with
        | (w2, t2, inl e) => (w2, t1 ++ t2, inl e)
        | (w2, t2, inr _) => (w2, t1 ++ t2, r)
        end
    end.

Definition lift (A : Type) (r : exn + A) : M A := fun w => (w, [], r).

Notation "x <- c ;; k" := (bind c (fun x => k))
  (at level 61, c at next level, right associativity).
Notation "c ;; k" := (bind c (fun _ => k))
  (at level 61, right associativity).

Definition call_transcribe (audio_np : list Q) : M (list Segment) :=
  fun w =>
    let (w', r) := model_transcribe audio_np language w in
    (w', [Transcribe audio_np language], r).

Definition call_subprocess (argv : list string) : M unit :=
  fun w =>
    let (w', r) := subprocess_run argv w in
    (w', [SubprocessRun argv], r).

(** *** [type_text] *)
Definition type_text (t : string) : M unit :=
  try_except
    (call_subprocess ["ydotool"; "type"; "-d1"; "-H1"; t ++ " "]%string ;;
     emit (Print (MsgTyped t)))
    (fun _ =>
       try_except
         (call_subprocess ["xdotool"; "type"; "--delay"; "10"; t ++ " "]%string ;;
          emit (Print (MsgTyped t)))
         (fun _ => emit (Print (MsgFailedToType t)))).

(** *** [process_audio] *)

(** Line 83: the chunks joined, read as 16-bit samples, each divided by
    32768. The conversion to float32 and the division by a power of two
    are exact, so the values are the rationals below. *)
Definition to_audio_np (audio_data : list chunk) : exn + list Q :=
  match frombuffer_int16 (bytes_join audio_data) with
  | inl e => inl e
  | inr samples => inr (map (fun s => inject_Z s / 32768) samples)
  end.

(** Line 86: [len(audio_np) < 0.5 * self.RATE]. *)
Definition too_short (audio_np : list Q) : bool :=
  Qlt_bool (inject_Z (Z.of_nat (length audio_np))) ((1 # 2) * inject_Z RATE).

(** Line 105. *)
Definition full_text (segments : list Segment) : string :=
  join " " (map (fun segment => strip (text segment))
                (filter (fun segment => truthy (strip (text segment))) segments)).

(** Lines 89 to 109: what follows the length test. *)
Definition transcribe_and_type (audio_np : list Q) : M unit :=
  segments <- call_transcribe audio_np ;;
  if truthy (full_text segments) then type_text (full_text segments)
  else ret tt.

Definition process_audio (audio_data : list chunk) : M unit :=
  audio_np <- lift (to_audio_np audio_data) ;;
  if too_short audio_np then ret tt
  else transcribe_and_type audio_np.

(** *** The body of the [while] loop of [run] *)

(** Lines 166 and 168. *)
Definition silence_duration (n : Z) : Q := inject_Z (n * CHUNK_DURATION_MS) / 1000.

Definition silence_reached (n : Z) : bool :=
  Qle_bool SILENCE_DURATION_SEC (silence_duration n).

Definition loop_iteration (self : VoiceTyping) (p : poll) : M VoiceTyping :=
  match p with
  | QueueEmpty => ret self
  | Interrupt e => raise e
  | Got c is_speech =>
      let self := set_pre_buffer self (deque_append (pre_buffer self) c) in
      if is_speech && negb (is_recording self) then
        emit (Print MsgMic) ;;
        let self := set_is_recording self true in
        let self := set_recording_buffer self (items (pre_buffer self)) in
        let self := set_recording_buffer self (recording_buffer self ++ [c]) in
        ret (set_silence_chunks self 0)
      else if is_recording self then
        let self := set_recording_buffer self (recording_buffer self ++ [c]) in
        if negb is_speech then
          let self := set_silence_chunks self (silence_chunks self + 1) in
          if silence_reached (silence_chunks self) then
            emit (Print MsgProcessing) ;;
            process_audio (recording_buffer self) ;;
            let self := set_is_recording self false in
            let self := set_recording_buffer self [] in
            ret (set_silence_chunks self 0)
          else ret self
        else ret (set_silence_chunks self 0)
      else ret self
  end.

(** The loop on what the queue delivers, in order. It is left only by an
    exception; a list that ends stands for an execution observed so far. *)
Fixpoint run_loop (self : VoiceTyping) (polls : list poll) : M VoiceTyping :=
  match polls with
  | [] => ret self
  | p :: rest => self' <- loop_iteration self p ;; run_loop self' rest
  end.

(** *** [cleanup] and [run] *)
Definition cleanup : M unit :=
  emit StopStream ;; emit CloseStream ;; emit Terminate ;; emit (Print MsgStopped).

Definition run (polls : list poll) : M unit :=
  emit (Print MsgBanner) ;;
  try_finally
    (try_except
       (run_loop init polls ;; ret tt)
       (fun e => match e with KeyboardInterrupt => ret tt | _ => raise e end))
    cleanup.

End Pipeline.

(** ** Notions used to state the properties *)

Definition lastn (A : Type) (n : nat) (l : list A) : list A :=
  skipn (length l - n) l.

Fixpoint push_all (A : Type) (d : deque A) (l : list A) : deque A :=
  match l with
  | [] => d
  | x :: l' => push_all (deque_append d x) l'
  end.

(** The samples of one chunk, and of a sequence of chunks read one by one. *)
Definition chunk_samples (c : chunk) : list Z :=
  match frombuffer_int16 c with
  | inl _ => []
  | inr l => l
  end.

(** Chunks the detector calls silence, chunks it calls speech. *)
Definition silent (cs : list chunk) : list poll := map (fun c => Got c false) cs.
Definition spoken (cs : list chunk) : list poll := map (fun c => Got c true) cs.

(** The chunks a sequence of polls delivers. *)
Definition chunks_of (polls : list poll) : list chunk :=
  flat_map (fun p => match p with Got c _ => [c] | _ => [] end) polls.

Definition poll_ok (p : poll) : Prop :=
  match p with Got c _ => chunk_ok c | _ => True end.

(** The state in which a finalize leaves the program. *)
Definition idle_after (d : deque chunk) : VoiceTyping :=
  {| pre_buffer := d; recording_buffer := []; is_recording := false;
     silence_chunks := 0 |}.

(** The transitions of the segmentation state machine: what an iteration
    that comes to its end makes of the state. [transition_of_step] derives
    the relation from [loop_iteration]. *)
Inductive transition : VoiceTyping -> poll -> VoiceTyping -> Prop :=
| T_empty s :
    transition s QueueEmpty s
| T_idle s c :
    is_recording s = false ->
    transition s (Got c false) (set_pre_buffer s (deque_append (pre_buffer s) c))
| T_onset s c :
    is_recording s = false ->
    transition s (Got c true)
      {| pre_buffer := deque_append (pre_buffer s) c;
         recording_buffer := items (deque_append (pre_buffer s) c) ++ [c];
         is_recording := true;
         silence_chunks := 0 |}
| T_speech s c :
    is_recording s = true ->
    transition s (Got c true)
      {| pre_buffer := deque_append (pre_buffer s) c;
         recording_buffer := recording_buffer s ++ [c];
         is_recording := true;
         silence_chunks := 0 |}
| T_silence s c :
    is_recording s = true ->
    (silence_chunks s + 1 < 27)%Z ->
    transition s (Got c false)
      {| pre_buffer := deque_append (pre_buffer s) c;
         recording_buffer := recording_buffer s ++ [c];
         is_recording := true;
         silence_chunks := silence_chunks s + 1 |}
| T_finalize s c :
    is_recording s = true ->
    (27 <= silence_chunks s + 1)%Z ->
    transition s (Got c false) (idle_after (deque_append (pre_buffer s) c)).

(** What holds of the state whenever an iteration starts. *)
Definition pre_buffer_inv (s : VoiceTyping) : Prop :=
  maxlen (pre_buffer s) = PRE_BUFFER_MAXLEN
  /\ (length (items (pre_buffer s)) <= maxlen (pre_buffer s))%nat.

Definition loop_inv (s : VoiceTyping) : Prop :=
  if is_recording s
  then (0 <= silence_chunks s <= 26)%Z
       /\ (2 + silence_chunks s <= Z.of_nat (length (recording_buffer s)))%Z
  else recording_buffer s = [] /\ silence_chunks s = 0%Z.

Definition chunks_inv (s : VoiceTyping) : Prop :=
  Forall chunk_ok (items (pre_buffer s)) /\ Forall chunk_ok (recording_buffer s).

Definition state_inv (s : VoiceTyping) : Prop := pre_buffer_inv s /\ loop_inv s.

(** Duration of a sample sequence, in seconds. *)
Definition duration_sec (audio_np : list Q) : Q :=
  inject_Z (Z.of_nat (length audio_np)) / inject_Z RATE.

Definition normalise (s : Z) : Q := inject_Z s / 32768.

(** Concrete collaborators and inputs. *)
Module Demo.

(** The outside is the number of calls made so far. *)
Definition engine_returns : list Q -> string -> nat -> nat * (exn + list Segment) :=
  fun _ _ n =>
    (S n, inr [mkSegment " hello "; mkSegment "  "; mkSegment "world"]).

Definition engine_raises : list Q -> string -> nat -> nat * (exn + list Segment) :=
  fun _ _ n => (S n, inl (Exception "transcription failed")).

Definition tool_works : list string -> nat -> nat * (exn + unit) :=
  fun _ n => (S n, inr tt).

Definition tool_missing : list string -> nat -> nat * (exn + unit) :=
  fun _ n => (S n, inl (Exception "No such file or directory")).

(** A chunk of 480 samples, all bytes equal. *)
Definition tone (n : nat) : chunk :=
  repeat (match Byte.of_nat n with Some b => b | None => x00 end) 960.

Definition tones (first count : nat) : list chunk := map tone (seq first count).

(** One utterance: a speech chunk and 27 silence chunks. *)
Definition utterance : list poll := Got (tone 200) true :: silent (tones 0 27).

(** An utterance still open: a speech chunk and 26 silence chunks, and the
    state it leads to from the start. *)
Definition open_utterance : list poll := Got (tone 200) true :: silent (tones 0 26).

Definition recording_26 : VoiceTyping :=
  {| pre_buffer := push_all (pre_buffer init) (tone 200 :: tones 0 26);
     recording_buffer := [tone 200; tone 200] ++ tones 0 26;
     is_recording := true;
     silence_chunks := 26 |}.

End Demo.

(** ** The rest of the program: the reader thread, and the device chosen by
       [main] and [__init__] *)

(** One turn of the loop of [audio_reader_thread]: the chunk read is put on
    the queue; when the read raises, whatever it raises, nothing is
    done. *)
Definition reader_iteration (audio_queue : list chunk) (read : exn + chunk)
  : list chunk :=
  match read with
  | inr c => audio_queue ++ [c]
  | inl _ => audio_queue
  end.

(** [audio_reader_thread], on what its turns observe: the value of
    [self.running] at the test of the [while], and the outcome of
    [self.stream.read]. *)
Fixpoint audio_reader_thread (audio_queue : list chunk)
         (turns : list (bool * (exn + chunk))) : list chunk :=
  match turns with
  | [] => audio_queue
  | (running, read) :: rest =>
      if running
      then audio_reader_thread (reader_iteration audio_queue read) rest
      else audio_queue
  end.

(** The exceptions that [except Exception] catches. *)
Definition is_Exception (e : exn) : bool :=
  match e with
  | KeyboardInterrupt | SystemExit => false
  | ValueError _ | Exception _ => true
  end.

(** [str(e)]. *)
Definition str_of_exn (e : exn) : string :=
  match e with
  | KeyboardInterrupt | SystemExit => EmptyString
  | ValueError msg | Exception msg => msg
  end.

(** Lines 207 to 216 of [main]: the device asked for, and the outcome of
    importing ctranslate2 and asking it for the number of CUDA devices
    (looked at only when the device is cuda). The result is the device
    passed on and the lines printed. *)
Definition detect_device (device : string) (probe : exn + Z)
  : exn + (string * list string) :=
  if String.eqb device "cuda" then
    match probe with
    | inr count =>
        if (count =? 0)%Z
        then inr ("cpu"%string, ["CUDA not available, using CPU"%string])
        else inr (device, [])
    | inl e =>
        if is_Exception e
        then inr ("cpu"%string,
                  [("CUDA detection failed (" ++ str_of_exn e ++ "), using CPU")%string])
        else inl e
    end
  else inr (device, []).

(** Line 35 of [__init__]. *)
Definition compute_type (device : string) : string :=
  if String.eqb device "cpu" then "int8"%string else "float16"%string.

(** ** Further notions used to state properties *)

(** The number of silence chunks since the last speech chunk. *)
Definition streak_step (n : Z) (p : poll) : Z :=
  match p with
  | Got _ true => 0
  | Got _ false => n + 1
  | _ => n
  end.

Definition silence_streak (n : Z) (polls : list poll) : Z :=
  fold_left streak_step polls n.

(** No exception is delivered and no silence streak reaches 27 chunks,
    starting from a streak of [n]. *)
Fixpoint stays_recording (n : Z) (polls : list poll) : bool :=
  match polls with
  | [] => true
  | QueueEmpty :: rest => stays_recording n rest
  | Got _ true :: rest => stays_recording 0 rest
  | Got _ false :: rest => (n + 1 <? 27)%Z && stays_recording (n + 1) rest
  | Interrupt _ :: _ => false
  end.

Definition is_queue_empty (p : poll) : bool :=
  match p with QueueEmpty => true | _ => false end.

(** The two marks the loop prints: onset and hand-over. *)
Definition is_mark (ev : event) : bool :=
  match ev with
  | Print MsgMic | Print MsgProcessing => true
  | _ => false
  end.

Definition marks (t : list event) : list event := filter is_mark t.

(** Marks in turn: an onset mark when idle, a hand-over mark when
    recording. The result is the state after the last mark, if the marks
    do alternate. *)
Fixpoint alternate (recording : bool) (ms : list event) : option bool :=
  match ms with
  | [] => Some recording
  | Print MsgMic :: rest => if recording then None else alternate true rest
  | Print MsgProcessing :: rest => if recording then alternate false rest else None
  | _ :: _ => None
  end.

Definition is_transcribe (ev : event) : bool :=
  match ev with Transcribe _ _ => true | _ => false end.

Definition is_processing (ev : event) : bool :=
  match ev with Print MsgProcessing => true | _ => false end.

Definition starts_with_space (s : string) : bool :=
  match s with
  | EmptyString => false
  | String c _ => isspace c
  end.

Fixpoint ends_with_space (s : string) : bool :=
  match s with
  | EmptyString => false
  | String c EmptyString => isspace c
  | String _ rest => ends_with_space rest
  end.

(** The chunks of the reads that returned, and the reads made while
    [self.running] is found set. *)
Definition successes (reads : list (exn + chunk)) : list chunk :=
  flat_map (fun r => match r with inr c => [c] | inl _ => [] end) reads.

Fixpoint while_running (turns : list (bool * (exn + chunk))) : list (exn + chunk) :=
  match turns with
  | (true, read) :: rest => read :: while_running rest
  | _ => []
  end.

(** * Properties *)

(** ** Lists: the last [n] elements *)

Lemma lastn_all (A : Type) (n : nat) (l : list A) :
  (length l <= n)%nat -> lastn n l = l.
Proof.
  intros H. unfold lastn.
  replace (length l - n)%nat with 0%nat by lia. reflexivity.
Qed.

Lemma lastn_length (A : Type) (n : nat) (l : list A) :
  length (lastn n l) = Nat.min (length l) n.
Proof. unfold lastn. rewrite length_skipn. lia. Qed.

Lemma lastn_min (A : Type) (n : nat) (l : list A) :
  lastn (Nat.min (length l) n) l = lastn n l.
Proof.
  destruct (Nat.le_gt_cases (length l) n) as [H | H].
  - rewrite Nat.min_l by assumption. rewrite !lastn_all; auto.
  - rewrite Nat.min_r by lia. reflexivity.
Qed.

Lemma lastn_app_lastn (A : Type) (n : nat) (l l' : list A) :
  lastn n (lastn n l ++ l') = lastn n (l ++ l').
Proof.
  destruct (Nat.le_gt_cases (length l) n) as [H | H].
  - rewrite (lastn_all l H). reflexivity.
  - unfold lastn at 1 3. rewrite !length_app, lastn_length.
    rewrite Nat.min_r by lia.
    unfold lastn.
    replace (length l + length l' - n)%nat
      with (length l' + (length l - n))%nat by lia.
    rewrite <- skipn_skipn.
    rewrite (skipn_app (length l - n) l l').
    replace (length l - n - length l)%nat with 0%nat by lia.
    rewrite skipn_O.
    replace (n + length l' - n)%nat with (length l')%nat by lia.
    reflexivity.
Qed.

Lemma lastn_snoc_full (A : Type) (n : nat) (l : list A) (x : A) :
  length l = n -> lastn n (l ++ [x]) = tl (l ++ [x]).
Proof.
  intros H. unfold lastn. rewrite length_app. simpl.
  replace (length l + 1 - n)%nat with 1%nat by lia.
  reflexivity.
Qed.

Lemma Forall_lastn (A : Type) (P : A -> Prop) (n : nat) (l : list A) :
  Forall P l -> Forall P (lastn n l).
Proof.
  intros H. unfold lastn.
  rewrite <- (firstn_skipn (length l - n) l) in H.
  apply Forall_app in H. tauto.
Qed.

(** ** The deque *)

Lemma deque_append_maxlen (A : Type) (d : deque A) (x : A) :
  maxlen (deque_append d x) = maxlen d.
Proof. reflexivity. Qed.

Lemma deque_append_items (A : Type) (d : deque A) (x : A) :
  (length (items d) <= maxlen d)%nat ->
  items (deque_append d x) = lastn (maxlen d) (items d ++ [x]).
Proof.
  intros H. unfold deque_append. cbn [items maxlen].
  destruct (Nat.ltb_spec (maxlen d) (length (items d ++ [x]))) as [L | L];
    rewrite length_app in L; simpl in L.
  - symmetry. apply lastn_snoc_full. lia.
  - symmetry. apply lastn_all. rewrite length_app. simpl. lia.
Qed.

Lemma deque_append_bounded (A : Type) (d : deque A) (x : A) :
  (length (items d) <= maxlen d)%nat ->
  (length (items (deque_append d x)) <= maxlen (deque_append d x))%nat.
Proof.
  intros H. rewrite deque_append_items by assumption.
  rewrite lastn_length, deque_append_maxlen. lia.
Qed.

Lemma deque_append_nonempty (A : Type) (d : deque A) (x : A) :
  (length (items d) <= maxlen d)%nat -> (0 < maxlen d)%nat ->
  exists front, items (deque_append d x) = front ++ [x].
Proof.
  intros H Hpos. unfold deque_append. cbn [items maxlen].
  destruct (Nat.ltb_spec (maxlen d) (length (items d ++ [x]))) as [L | L].
  - destruct (items d) as [| y l] eqn:E.
    + simpl in L. lia.
    + exists l. reflexivity.
  - exists (items d). reflexivity.
Qed.

Lemma push_all_maxlen (A : Type) (l : list A) (d : deque A) :
  maxlen (push_all d l) = maxlen d.
Proof.
  revert d. induction l as [| x l IH]; intros d; simpl.
  - reflexivity.
  - rewrite IH. reflexivity.
Qed.

Lemma push_all_items (A : Type) (l : list A) (d : deque A) :
  (length (items d) <= maxlen d)%nat ->
  items (push_all d l) = lastn (maxlen d) (items d ++ l).
Proof.
  revert d. induction l as [| x l IH]; intros d H; simpl.
  - rewrite app_nil_r. symmetry. apply lastn_all. assumption.
  - rewrite IH by (apply deque_append_bounded; assumption).
    rewrite deque_append_maxlen, deque_append_items by assumption.
    rewrite lastn_app_lastn. rewrite <- app_assoc. reflexivity.
Qed.

Lemma push_all_app (A : Type) (l l' : list A) (d : deque A) :
  push_all d (l ++ l') = push_all (push_all d l) l'.
Proof.
  revert d. induction l as [| x l IH]; intros d; simpl; [reflexivity | apply IH].
Qed.

(** ** The numbers of the configuration *)

Lemma CHUNK_SIZE_value : CHUNK_SIZE = 480%Z.
Proof. reflexivity. Qed.

Lemma PRE_BUFFER_MAXLEN_value : PRE_BUFFER_MAXLEN = 50%nat.
Proof. reflexivity. Qed.

Lemma chunk_ok_length (c : chunk) : chunk_ok c <-> length c = 960%nat.
Proof. unfold chunk_ok. rewrite CHUNK_SIZE_value. reflexivity. Qed.

Lemma silence_reached_spec (n : Z) : silence_reached n = (27 <=? n)%Z.
Proof.
  unfold silence_reached, silence_duration, SILENCE_DURATION_SEC,
    CHUNK_DURATION_MS, Qle_bool.
  cbn [Qnum Qden Qdiv Qmult Qinv inject_Z Pos.mul].
  destruct (Z.leb_spec 27 n); destruct (Z.leb_spec (8 * 1000) (n * 30 * 1 * 10)); 
    try reflexivity; lia.
Qed.

Lemma too_short_spec (audio_np : list Q) :
  too_short audio_np = (Z.of_nat (length audio_np) <? 8000)%Z.
Proof.
  unfold too_short, Qlt_bool, Qle_bool, RATE.
  cbn [Qnum Qden Qmult inject_Z Pos.mul].
  destruct (Z.ltb_spec (Z.of_nat (length audio_np)) 8000);
    destruct (Z.leb_spec (1 * 16000 * 1) (Z.of_nat (length audio_np) * 2));
    try reflexivity; lia.
Qed.

(** ** Reading samples *)

Lemma list_pair_ind (A : Type) (P : list A -> Prop) :
  P [] -> (forall x, P [x]) -> (forall x y l, P l -> P (x :: y :: l)) ->
  forall l, P l.
Proof.
  intros H0 H1 H2.
  assert (both : forall l, P l /\ forall x, P (x :: l)).
  { induction l as [| y l [IHa IHb]]; split; auto. }
  intros l. apply both.
Qed.

Lemma frombuffer_int16_app (a b : bytes) (la : list Z) :
  frombuffer_int16 a = inr la ->
  frombuffer_int16 (a ++ b) =
    match frombuffer_int16 b with
    | inl e => inl e
    | inr lb => inr (la ++ lb)
    end.
Proof.
  revert la. induction a as [| x | x y a IH] using list_pair_ind; intros la H.
  - injection H as <-. simpl. destruct (frombuffer_int16 b); reflexivity.
  - discriminate H.
  - cbn [frombuffer_int16] in H. cbn [app frombuffer_int16].
    destruct (frombuffer_int16 a) as [e | l]; [discriminate H |].
    injection H as <-.
    rewrite (IH l eq_refl).
    destruct (frombuffer_int16 b); reflexivity.
Qed.

Lemma frombuffer_int16_even (n : nat) (buf : bytes) :
  length buf = (2 * n)%nat ->
  exists l, frombuffer_int16 buf = inr l /\ length l = n.
Proof.
  revert n. induction buf as [| x | x y buf IH] using list_pair_ind; intros n H.
  - exists []. simpl in H. split; [reflexivity | simpl; lia].
  - simpl in H. lia.
  - destruct n as [| n]; [simpl in H; lia |].
    destruct (IH n) as (l & E & L); [simpl in H; lia |].
    exists (int16_le x y :: l). cbn [frombuffer_int16]. rewrite E.
    split; [reflexivity | simpl; lia].
Qed.

Lemma frombuffer_int16_odd (n : nat) (buf : bytes) :
  length buf = (2 * n + 1)%nat ->
  exists e, frombuffer_int16 buf = inl e.
Proof.
  revert n. induction buf as [| x | x y buf IH] using list_pair_ind; intros n H.
  - simpl in H. lia.
  - eexists. reflexivity.
  - destruct n as [| n]; [simpl in H; lia |].
    destruct (IH n) as (e & E); [simpl in H; lia |].
    exists e. cbn [frombuffer_int16]. rewrite E. reflexivity.
Qed.

Lemma int16_le_range (lo hi : byte) :
  (-32768 <= int16_le lo hi <= 32767)%Z.
Proof.
  unfold int16_le.
  pose proof (Byte.to_N_bounded lo). pose proof (Byte.to_N_bounded hi).
  destruct (Z.ltb_spec (Z.of_N (Byte.to_N lo) + 256 * Z.of_N (Byte.to_N hi)) 32768);
    lia.
Qed.

Lemma frombuffer_int16_range (buf : bytes) (l : list Z) :
  frombuffer_int16 buf = inr l ->
  Forall (fun s => -32768 <= s <= 32767)%Z l.
Proof.
  revert l. induction buf as [| x | x y buf IH] using list_pair_ind; intros l H.
  - injection H as <-. constructor.
  - discriminate H.
  - cbn [frombuffer_int16] in H.
    destruct (frombuffer_int16 buf) as [e | l']; [discriminate H |].
    injection H as <-. constructor; [apply int16_le_range | apply IH; reflexivity].
Qed.

Lemma frombuffer_int16_join (audio_data : list chunk) :
  Forall chunk_ok audio_data ->
  frombuffer_int16 (bytes_join audio_data)
  = inr (List.concat (map chunk_samples audio_data))
  /\ length (List.concat (map chunk_samples audio_data))
     = (480 * length audio_data)%nat.
Proof.
  induction 1 as [| c rest Hc _ [IH IHlen]].
  - split; reflexivity.
  - apply chunk_ok_length in Hc.
    destruct (@frombuffer_int16_even 480 c) as (l & E & L); [exact Hc |].
    unfold bytes_join in *. cbn [List.concat map].
    rewrite (@frombuffer_int16_app c (List.concat rest) l E), IH.
    assert (Ec : chunk_samples c = l) by (unfold chunk_samples; rewrite E; reflexivity).
    rewrite Ec.
    split; [reflexivity |].
    rewrite length_app, IHlen, L. cbn [length]. lia.
Qed.

(** ** The main loop, one case at a time *)

Section Properties.

Variable World : Type.
Variable model_transcribe : list Q -> string -> World -> World * (exn + list Segment).
Variable subprocess_run : list string -> World -> World * (exn + unit).
Variable language : string.

Local Abbreviation step := (loop_iteration model_transcribe subprocess_run language).
Local Abbreviation loop := (run_loop model_transcribe subprocess_run language).
Local Abbreviation process := (process_audio model_transcribe subprocess_run language).
Local Abbreviation dispatch := (transcribe_and_type model_transcribe subprocess_run language).

Local Notation "x <- c ;; k" := (bind c (fun x => k))
  (at level 61, c at next level, right associativity).
Local Notation "c ;; k" := (bind c (fun _ => k))
  (at level 61, right associativity).

Lemma step_idle_silence (s : VoiceTyping) (c : chunk) (w : World) :
  is_recording s = false ->
  step s (Got c false) w
  = (w, [], inr (set_pre_buffer s (deque_append (pre_buffer s) c))).
Proof.
  intros H. unfold loop_iteration. cbn. rewrite H. reflexivity.
Qed.

Lemma step_onset (s : VoiceTyping) (c : chunk) (w : World) :
  is_recording s = false ->
  step s (Got c true) w
  = (w, [Print MsgMic],
     inr {| pre_buffer := deque_append (pre_buffer s) c;
            recording_buffer := items (deque_append (pre_buffer s) c) ++ [c];
            is_recording := true;
            silence_chunks := 0 |}).
Proof.
  intros H. unfold loop_iteration. cbn. rewrite H. reflexivity.
Qed.

Lemma step_recording_speech (s : VoiceTyping) (c : chunk) (w : World) :
  is_recording s = true ->
  step s (Got c true) w
  = (w, [],
     inr {| pre_buffer := deque_append (pre_buffer s) c;
            recording_buffer := recording_buffer s ++ [c];
            is_recording := true;
            silence_chunks := 0 |}).
Proof.
  intros H. destruct s as [d b r n]. cbn in H. subst r. reflexivity.
Qed.

Lemma step_recording_silence (s : VoiceTyping) (c : chunk) (w : World) :
  is_recording s = true ->
  (silence_chunks s + 1 < 27)%Z ->
  step s (Got c false) w
  = (w, [],
     inr {| pre_buffer := deque_append (pre_buffer s) c;
            recording_buffer := recording_buffer s ++ [c];
            is_recording := true;
            silence_chunks := silence_chunks s + 1 |}).
Proof.
  intros H L. destruct s as [d b r n]. cbn in H, L. subst r.
  unfold loop_iteration.
  cbn [set_pre_buffer set_recording_buffer set_silence_chunks set_is_recording
       pre_buffer recording_buffer is_recording silence_chunks andb negb].
  rewrite silence_reached_spec.
  destruct (Z.leb_spec 27 (n + 1)); [lia | reflexivity].
Qed.

Lemma step_finalize (s : VoiceTyping) (c : chunk) (w : World) :
  is_recording s = true ->
  (27 <= silence_chunks s + 1)%Z ->
  step s (Got c false) w
  = (emit (Print MsgProcessing) ;;
     process (recording_buffer s ++ [c]) ;;
     ret (idle_after (deque_append (pre_buffer s) c))) w.
Proof.
  intros H L. destruct s as [d b r n]. cbn in H, L. subst r.
  unfold loop_iteration.
  cbn [set_pre_buffer set_recording_buffer set_silence_chunks set_is_recording
       pre_buffer recording_buffer is_recording silence_chunks andb negb].
  rewrite silence_reached_spec.
  destruct (Z.leb_spec 27 (n + 1)); [reflexivity | lia].
Qed.

(** *** Runs *)

Lemma loop_app (p1 p2 : list poll) (s : VoiceTyping) (w : World) :
  loop s (p1 ++ p2) w = (s' <- loop s p1 ;; loop s' p2) w.
Proof.
  revert s w. induction p1 as [| p p1 IH]; intros s w.
  - cbn. unfold bind, ret. destruct (loop s p2 w) as [[w2 t2] r]. reflexivity.
  - cbn [app run_loop]. unfold bind at 1 2 3.
    destruct (step s p w) as [[w1 t1] [e | s1]]; [reflexivity |].
    rewrite IH. unfold bind.
    destruct (loop s1 p1 w1) as [[w2 t2] [e | s2]]; [reflexivity |].
    destruct (loop s2 p2 w2) as [[w3 t3] r].
    rewrite app_assoc. reflexivity.
Qed.

Lemma loop_idle_silence (cs : list chunk) (s : VoiceTyping) (w : World) :
  is_recording s = false ->
  loop s (silent cs) w
  = (w, [], inr (set_pre_buffer s (push_all (pre_buffer s) cs))).
Proof.
  revert s. induction cs as [| c cs IH]; intros s H.
  - destruct s; reflexivity.
  - cbn [silent map run_loop]. unfold bind.
    rewrite step_idle_silence by assumption.
    unfold silent in IH. rewrite IH by exact H.
    reflexivity.
Qed.

Lemma loop_recording_speech (cs : list chunk) (s : VoiceTyping) (w : World) :
  is_recording s = true ->
  silence_chunks s = 0%Z ->
  loop s (spoken cs) w
  = (w, [],
     inr {| pre_buffer := push_all (pre_buffer s) cs;
            recording_buffer := recording_buffer s ++ cs;
            is_recording := true;
            silence_chunks := 0 |}).
Proof.
  revert s. induction cs as [| c cs IH]; intros s H Z0.
  - destruct s; cbn in *. subst. rewrite app_nil_r. reflexivity.
  - cbn [spoken map run_loop]. unfold bind.
    rewrite step_recording_speech by assumption.
    unfold spoken in IH. rewrite IH by reflexivity.
    cbn [pre_buffer recording_buffer push_all]. rewrite <- app_assoc.
    reflexivity.
Qed.

Lemma loop_recording_silence (cs : list chunk) (s : VoiceTyping) (w : World) :
  is_recording s = true ->
  (silence_chunks s + Z.of_nat (length cs) < 27)%Z ->
  loop s (silent cs) w
  = (w, [],
     inr {| pre_buffer := push_all (pre_buffer s) cs;
            recording_buffer := recording_buffer s ++ cs;
            is_recording := true;
            silence_chunks := silence_chunks s + Z.of_nat (length cs) |}).
Proof.
  revert s. induction cs as [| c cs IH]; intros s H L.
  - destruct s; cbn in *. subst. rewrite app_nil_r, Z.add_0_r. reflexivity.
  - cbn [silent map run_loop]. unfold bind.
    cbn [length] in L.
    rewrite step_recording_silence by (assumption || lia).
    unfold silent in IH. rewrite IH by (cbn [is_recording silence_chunks]; (reflexivity || lia)).
    cbn [pre_buffer recording_buffer silence_chunks push_all length].
    rewrite <- app_assoc.
    replace (silence_chunks s + 1 + Z.of_nat (length cs))%Z
      with (silence_chunks s + Z.of_nat (S (length cs)))%Z by lia.
    reflexivity.
Qed.

(** A poll that finds the queue empty changes nothing. *)
Lemma loop_QueueEmpty (polls : list poll) (s : VoiceTyping) (w : World) :
  loop s (QueueEmpty :: polls) w = loop s polls w.
Proof.
  cbn. unfold bind, ret. destruct (loop s polls w) as [[w2 t2] r]. reflexivity.
Qed.

End Properties.

Lemma init_pre_buffer_inv : pre_buffer_inv init.
Proof. split; [reflexivity | cbn; lia]. Qed.

Lemma init_loop_inv : loop_inv init.
Proof. split; reflexivity. Qed.

Lemma init_chunks_inv : chunks_inv init.
Proof. split; constructor. Qed.

Lemma transition_pre_buffer (s s' : VoiceTyping) (p : poll) :
  transition s p s' ->
  pre_buffer s' = push_all (pre_buffer s) (chunks_of [p]).
Proof. intros T. destruct T; reflexivity. Qed.

Lemma transition_pre_buffer_inv (s s' : VoiceTyping) (p : poll) :
  transition s p s' -> pre_buffer_inv s -> pre_buffer_inv s'.
Proof.
  intros T [M B]. unfold pre_buffer_inv. rewrite (transition_pre_buffer T).
  destruct p as [| c sp | e]; cbn [chunks_of flat_map app push_all].
  - auto.
  - rewrite deque_append_maxlen. split; [exact M |].
    rewrite <- (deque_append_maxlen (pre_buffer s) c).
    apply deque_append_bounded. exact B.
  - auto.
Qed.

Lemma transition_loop_inv (s s' : VoiceTyping) (p : poll) :
  transition s p s' -> pre_buffer_inv s -> loop_inv s -> loop_inv s'.
Proof.
  intros T [M B] I. unfold loop_inv in *.
  destruct T as [s | s c R | s c R | s c R | s c R L | s c R L];
    try rewrite R in I; cbn [is_recording recording_buffer silence_chunks
                             set_pre_buffer idle_after].
  - exact I.
  - rewrite R. exact I.
  - destruct (@deque_append_nonempty _ (pre_buffer s) c B) as (front & E).
    { rewrite M, PRE_BUFFER_MAXLEN_value. lia. }
    rewrite E, !length_app. cbn [length]. lia.
  - rewrite length_app. cbn [length]. lia.
  - rewrite length_app. cbn [length]. lia.
  - split; reflexivity.
Qed.

Lemma transition_chunks_inv (s s' : VoiceTyping) (p : poll) :
  transition s p s' -> poll_ok p -> pre_buffer_inv s ->
  chunks_inv s -> chunks_inv s'.
Proof.
  intros T Hp [M B] [Cp Cr].
  assert (Cd : forall c, chunk_ok c ->
                Forall chunk_ok (items (deque_append (pre_buffer s) c))).
  { intros c Hc. rewrite deque_append_items by exact B.
    apply Forall_lastn, Forall_app. split; [exact Cp | repeat constructor; exact Hc]. }
  unfold chunks_inv.
  destruct T; cbn [pre_buffer recording_buffer set_pre_buffer idle_after];
    cbn [poll_ok] in Hp; split; auto;
    apply Forall_app; split; auto.
Qed.

Section Reachable.

Variable World : Type.
Variable model_transcribe : list Q -> string -> World -> World * (exn + list Segment).
Variable subprocess_run : list string -> World -> World * (exn + unit).
Variable language : string.

Local Abbreviation step := (loop_iteration model_transcribe subprocess_run language).
Local Abbreviation loop := (run_loop model_transcribe subprocess_run language).
Local Abbreviation process := (process_audio model_transcribe subprocess_run language).

Lemma transition_of_step (s s' : VoiceTyping) (p : poll) (w w' : World)
      (t : list event) :
  step s p w = (w', t, inr s') -> transition s p s'.
Proof.
  intros H. destruct p as [| c sp | e].
  - injection H as _ _ <-. constructor.
  - destruct sp, (is_recording s) eqn:R.
    + rewrite step_recording_speech in H by exact R.
      injection H as _ _ <-. constructor. exact R.
    + rewrite step_onset in H by exact R.
      injection H as _ _ <-. constructor. exact R.
    + destruct (Z.lt_ge_cases (silence_chunks s + 1) 27) as [L | L].
      * rewrite step_recording_silence in H by assumption.
        injection H as _ _ <-. constructor; assumption.
      * rewrite step_finalize in H by assumption.
        unfold bind, emit, ret in H.
        destruct (process (recording_buffer s ++ [c]) w) as [[w1 t1] [e | []]];
          [discriminate H |].
        injection H as _ _ <-. constructor; assumption.
    + rewrite step_idle_silence in H by exact R.
      injection H as _ _ <-. constructor. exact R.
  - discriminate H.
Qed.

(** A run that comes to its end is a chain of transitions; the invariants
    follow it. *)
Lemma loop_invariant (P : VoiceTyping -> Prop) (Ok : poll -> Prop) :
  (forall s p s', transition s p s' -> Ok p -> P s -> P s') ->
  forall polls s s' w w' t,
    loop s polls w = (w', t, inr s') ->
    Forall Ok polls -> P s -> P s'.
Proof.
  intros Hstep. induction polls as [| p polls IH]; intros s s' w w' t H HQ HP.
  - injection H as _ _ <-. exact HP.
  - cbn [run_loop] in H. unfold bind in H.
    destruct (step s p w) as [[w1 t1] [e | s1]] eqn:E; [discriminate H |].
    destruct (loop s1 polls w1) as [[w2 t2] r] eqn:E2.
    injection H as _ _ ->.
    inversion HQ; subst.
    apply (IH s1 s' w1 w2 t2 E2); [assumption |].
    apply (Hstep s p s1); [exact (@transition_of_step _ _ _ _ _ _ E) | assumption | exact HP].
Qed.

Lemma loop_state_inv (polls : list poll) (s s' : VoiceTyping) (w w' : World)
      (t : list event) :
  loop s polls w = (w', t, inr s') -> state_inv s -> state_inv s'.
Proof.
  intros H I.
  apply (@loop_invariant state_inv (fun _ => True)) with (2 := H); [| | exact I].
  - intros a p b T _ [Ip Il]. split.
    + exact (transition_pre_buffer_inv T Ip).
    + exact (transition_loop_inv T Ip Il).
  - apply Forall_forall. auto.
Qed.

Lemma loop_chunks_inv (polls : list poll) (s s' : VoiceTyping) (w w' : World)
      (t : list event) :
  loop s polls w = (w', t, inr s') -> Forall poll_ok polls ->
  pre_buffer_inv s /\ chunks_inv s -> pre_buffer_inv s' /\ chunks_inv s'.
Proof.
  intros H Ok I.
  apply (@loop_invariant (fun s => pre_buffer_inv s /\ chunks_inv s) poll_ok)
    with (2 := H); [| exact Ok | exact I].
  intros a p b T Hp [Ip Ic]. split.
  - exact (transition_pre_buffer_inv T Ip).
  - exact (transition_chunks_inv T Hp Ip Ic).
Qed.

Lemma loop_pre_buffer (polls : list poll) (s s' : VoiceTyping) (w w' : World)
      (t : list event) :
  loop s polls w = (w', t, inr s') ->
  pre_buffer s' = push_all (pre_buffer s) (chunks_of polls).
Proof.
  revert s w w' t. induction polls as [| p polls IH]; intros s w w' t H.
  - injection H as _ _ <-. reflexivity.
  - cbn [run_loop] in H. unfold bind in H.
    destruct (step s p w) as [[w1 t1] [e | s1]] eqn:E; [discriminate H |].
    destruct (loop s1 polls w1) as [[w2 t2] r] eqn:E2.
    injection H as _ _ ->.
    rewrite (IH _ _ _ _ E2), (transition_pre_buffer (@transition_of_step _ _ _ _ _ _ E)).
    replace (chunks_of (p :: polls)) with (chunks_of [p] ++ chunks_of polls)
      by (unfold chunks_of; cbn [flat_map]; rewrite app_nil_r; reflexivity).
    rewrite push_all_app. reflexivity.
Qed.

End Reachable.

(** ** The assembler and the dispatcher *)

Lemma normalise_range (s : Z) :
  (-32768 <= s <= 32767)%Z -> (-1 <= normalise s)%Q /\ (normalise s <= 1)%Q.
Proof.
  intros H. unfold normalise, Qle. cbn. lia.
Qed.

Lemma duration_short_iff (audio_np : list Q) :
  (duration_sec audio_np < 1 # 2)%Q <-> too_short audio_np = true.
Proof.
  rewrite too_short_spec. unfold duration_sec, Qlt, RATE. cbn.
  rewrite Z.ltb_lt. lia.
Qed.

Lemma to_audio_np_ok (audio_data : list chunk) :
  Forall chunk_ok audio_data ->
  to_audio_np audio_data
  = inr (map normalise (List.concat (map chunk_samples audio_data)))
  /\ length (map normalise (List.concat (map chunk_samples audio_data)))
     = (480 * length audio_data)%nat.
Proof.
  intros H. destruct (frombuffer_int16_join H) as [E L].
  unfold to_audio_np. rewrite E. split; [reflexivity |].
  rewrite length_map. exact L.
Qed.

Lemma join_empty (sep : string) (l : list string) :
  Forall (fun s => truthy s = true) l ->
  join sep l = EmptyString -> l = [].
Proof.
  intros H E. destruct l as [| x l]; [reflexivity |].
  exfalso. inversion H as [| ? ? Hx _]; subst.
  destruct x as [| a x]; [discriminate Hx |].
  unfold join in E. cbn in E. destruct l; discriminate E.
Qed.

Lemma truthy_false (s : string) : truthy s = false <-> s = EmptyString.
Proof. destruct s; split; intros H; (reflexivity || discriminate H). Qed.

Section Dispatch.

Variable World : Type.
Variable model_transcribe : list Q -> string -> World -> World * (exn + list Segment).
Variable subprocess_run : list string -> World -> World * (exn + unit).
Variable language : string.

Local Abbreviation step := (loop_iteration model_transcribe subprocess_run language).
Local Abbreviation loop := (run_loop model_transcribe subprocess_run language).
Local Abbreviation process := (process_audio model_transcribe subprocess_run language).
Local Abbreviation dispatch := (transcribe_and_type model_transcribe subprocess_run language).
Local Abbreviation typing := (type_text subprocess_run).

Lemma process_audio_long (audio_data : list chunk) (audio_np : list Q) (w : World) :
  to_audio_np audio_data = inr audio_np ->
  too_short audio_np = false ->
  process audio_data w = dispatch audio_np w.
Proof.
  intros E S. unfold process_audio, bind, lift. rewrite E, S.
  destruct (dispatch audio_np w) as [[w2 t2] r]. reflexivity.
Qed.

Lemma process_audio_short (audio_data : list chunk) (audio_np : list Q) (w : World) :
  to_audio_np audio_data = inr audio_np ->
  too_short audio_np = true ->
  process audio_data w = (w, [], inr tt).
Proof.
  intros E S. unfold process_audio, bind, lift. rewrite E, S. reflexivity.
Qed.

Lemma process_audio_odd (audio_data : list chunk) (e : exn) (w : World) :
  to_audio_np audio_data = inl e ->
  process audio_data w = (w, [], inl e).
Proof.
  intros E. unfold process_audio, bind, lift. rewrite E. reflexivity.
Qed.

(** The exact behaviour of [type_text]: the first tool, and the second one
    when the first raises; no exception leaves it. *)
Lemma type_text_cases (t : string) (w : World) :
  let y := ["ydotool"; "type"; "-d1"; "-H1"; t ++ " "]%string in
  let x := ["xdotool"; "type"; "--delay"; "10"; t ++ " "]%string in
  typing t w
  = match subprocess_run y w with
    | (w1, inr _) => (w1, [SubprocessRun y; Print (MsgTyped t)], inr tt)
    | (w1, inl _) =>
        match subprocess_run x w1 with
        | (w2, inr _) =>
            (w2, [SubprocessRun y; SubprocessRun x; Print (MsgTyped t)], inr tt)
        | (w2, inl _) =>
            (w2, [SubprocessRun y; SubprocessRun x; Print (MsgFailedToType t)], inr tt)
        end
    end.
Proof.
  cbv zeta. unfold type_text, try_except, bind, call_subprocess, emit.
  destruct (subprocess_run _ w) as [w1 [e | []]]; [| reflexivity].
  destruct (subprocess_run _ w1) as [w2 [e' | []]]; reflexivity.
Qed.

Lemma type_text_returns (t : string) (w : World) :
  exists w' tr, typing t w = (w', tr, inr tt).
Proof.
  rewrite type_text_cases. cbv zeta.
  destruct (subprocess_run _ w) as [w1 [e | []]]; [| eauto].
  destruct (subprocess_run _ w1) as [w2 [e' | []]]; eauto.
Qed.

Lemma dispatch_engine_raises (audio_np : list Q) (w w' : World) (e : exn) :
  model_transcribe audio_np language w = (w', inl e) ->
  dispatch audio_np w = (w', [Transcribe audio_np language], inl e).
Proof.
  intros E. unfold transcribe_and_type, bind, call_transcribe. rewrite E.
  reflexivity.
Qed.

Lemma dispatch_engine_returns (audio_np : list Q) (w w1 : World)
      (segments : list Segment) :
  model_transcribe audio_np language w = (w1, inr segments) ->
  dispatch audio_np w
  = if truthy (full_text segments)
    then match typing (full_text segments) w1 with
         | (w2, t2, r) => (w2, Transcribe audio_np language :: t2, r)
         end
    else (w1, [Transcribe audio_np language], inr tt).
Proof.
  intros E. unfold transcribe_and_type, bind, call_transcribe. rewrite E.
  destruct (truthy (full_text segments)); reflexivity.
Qed.

Lemma dispatch_calls_engine (audio_np : list Q) (w : World) :
  exists w' t r, dispatch audio_np w = (w', Transcribe audio_np language :: t, r).
Proof.
  destruct (model_transcribe audio_np language w) as [w1 [e | segments]] eqn:E.
  - rewrite (dispatch_engine_raises E). eauto.
  - rewrite (dispatch_engine_returns E).
    destruct (truthy (full_text segments)); [| eauto].
    destruct (typing (full_text segments) w1) as [[w2 t2] r]. eauto.
Qed.

(** An exception of the engine leaves [process_audio], the iteration and
    the loop; nothing that the queue holds afterwards is looked at. *)
Lemma loop_engine_raises (s : VoiceTyping) (c : chunk) (rest : list poll)
      (audio_np : list Q) (w w' : World) (e : exn) :
  is_recording s = true ->
  (27 <= silence_chunks s + 1)%Z ->
  to_audio_np (recording_buffer s ++ [c]) = inr audio_np ->
  too_short audio_np = false ->
  model_transcribe audio_np language w = (w', inl e) ->
  loop s (Got c false :: rest) w
  = (w', [Print MsgProcessing; Transcribe audio_np language], inl e).
Proof.
  intros R L A S E. cbn [run_loop]. unfold bind at 1.
  rewrite step_finalize by assumption.
  unfold bind, emit.
  rewrite (@process_audio_long _ audio_np _ A S), (dispatch_engine_raises E).
  reflexivity.
Qed.

End Dispatch.

(** ** The properties of the specification *)

Section Claims.

Variable World : Type.
Variable model_transcribe : list Q -> string -> World -> World * (exn + list Segment).
Variable subprocess_run : list string -> World -> World * (exn + unit).
Variable language : string.

Local Abbreviation step := (loop_iteration model_transcribe subprocess_run language).
Local Abbreviation loop := (run_loop model_transcribe subprocess_run language).
Local Abbreviation process := (process_audio model_transcribe subprocess_run language).
Local Abbreviation dispatch := (transcribe_and_type model_transcribe subprocess_run language).

Local Notation "x <- c ;; k" := (bind c (fun x => k))
  (at level 61, c at next level, right associativity).
Local Notation "c ;; k" := (bind c (fun _ => k))
  (at level 61, right associativity).

(** C4. Whenever an iteration of the main loop has come to its end, the
    pre-buffer holds exactly the last min(n, capacity) of the n chunks pushed
    so far, in arrival order; its capacity is the 50 computed in [__init__]
    and has not changed; the next push appends when fewer than 50 chunks
    were pushed and otherwise drops the oldest chunk and appends. *)
Theorem pre_buffer_holds_last_chunks
        (polls : list poll) (w w' : World) (t : list event) (s : VoiceTyping) :
  loop init polls w = (w', t, inr s) ->
  let pushed := chunks_of polls in
  Z.of_nat PRE_BUFFER_MAXLEN
  = int (PRE_BUFFER_DURATION_SEC * inject_Z RATE / inject_Z CHUNK_SIZE)
  /\ PRE_BUFFER_MAXLEN = 50%nat
  /\ maxlen (pre_buffer s) = PRE_BUFFER_MAXLEN
  /\ items (pre_buffer s)
     = lastn (Nat.min (length pushed) PRE_BUFFER_MAXLEN) pushed
  /\ length (items (pre_buffer s)) = Nat.min (length pushed) PRE_BUFFER_MAXLEN
  /\ forall c,
       items (deque_append (pre_buffer s) c)
       = lastn (Nat.min (S (length pushed)) PRE_BUFFER_MAXLEN) (pushed ++ [c])
       /\ items (deque_append (pre_buffer s) c)
          = if (length pushed <? PRE_BUFFER_MAXLEN)%nat
            then items (pre_buffer s) ++ [c]
            else tl (items (pre_buffer s)) ++ [c].
Proof.
  intros H pushed.
  pose proof H as E. apply loop_pre_buffer in E. fold pushed in E.
  assert (B0 : (length (items (pre_buffer init)) <= maxlen (pre_buffer init))%nat)
    by (cbn; lia).
  assert (I : items (pre_buffer s) = lastn PRE_BUFFER_MAXLEN pushed).
  { rewrite E, push_all_items by exact B0. reflexivity. }
  assert (M : maxlen (pre_buffer s) = PRE_BUFFER_MAXLEN).
  { rewrite E, push_all_maxlen. reflexivity. }
  assert (Len : length (items (pre_buffer s)) = Nat.min (length pushed) PRE_BUFFER_MAXLEN).
  { rewrite I. apply lastn_length. }
  repeat split; try assumption; try reflexivity.
  - rewrite lastn_min. exact I.
  - rewrite deque_append_items by (rewrite M, Len; lia).
    rewrite M, I, lastn_app_lastn.
    replace (S (length pushed)) with (length (pushed ++ [c]))
      by (rewrite length_app; cbn [length]; lia).
    rewrite lastn_min. reflexivity.
  - unfold deque_append. cbn [items]. rewrite M, length_app, Len.
    cbn [length].
    destruct (Nat.ltb_spec (length pushed) PRE_BUFFER_MAXLEN) as [L | L].
    + rewrite Nat.min_l by lia.
      destruct (Nat.ltb_spec PRE_BUFFER_MAXLEN (length pushed + 1)); [lia | reflexivity].
    + rewrite Nat.min_r by lia.
      destruct (Nat.ltb_spec PRE_BUFFER_MAXLEN (PRE_BUFFER_MAXLEN + 1)); [| lia].
      destruct (items (pre_buffer s)) as [| x l] eqn:Ei; [| reflexivity].
      cbn [length] in Len. rewrite Nat.min_r in Len by lia.
      rewrite PRE_BUFFER_MAXLEN_value in Len. discriminate Len.
Qed.

(** C10. Whenever an iteration of the main loop starts: in Recording the
    accumulated silence is below the threshold (at most 26 chunks); in Idle
    the recording buffer is empty and the silence counter is 0; and the
    iteration in which the silence reaches the threshold is the one that
    prints, hands the buffer to [process_audio] and resets to Idle. *)
Theorem loop_start_invariant
        (polls : list poll) (w w' : World) (t : list event) (s : VoiceTyping) :
  loop init polls w = (w', t, inr s) ->
  (is_recording s = true ->
     (silence_duration (silence_chunks s) < SILENCE_DURATION_SEC)%Q
     /\ (0 <= silence_chunks s <= 26)%Z)
  /\ (is_recording s = false ->
        recording_buffer s = [] /\ silence_chunks s = 0%Z)
  /\ (forall c w1,
        is_recording s = true ->
        silence_reached (silence_chunks s + 1) = true ->
        step s (Got c false) w1
        = (emit (Print MsgProcessing) ;;
           process (recording_buffer s ++ [c]) ;;
           ret (idle_after (deque_append (pre_buffer s) c))) w1)
  /\ (forall c w1,
        is_recording s = true ->
        silence_reached (silence_chunks s + 1) = false ->
        exists s1,
          step s (Got c false) w1 = (w1, [], inr s1)
          /\ is_recording s1 = true
          /\ silence_chunks s1 = (silence_chunks s + 1)%Z).
Proof.
  intros H.
  pose proof H as I. apply loop_state_inv in I;
    [| exact (conj init_pre_buffer_inv init_loop_inv)].
  destruct I as [_ I]. unfold loop_inv in I.
  repeat split.
  - rewrite H0 in I. destruct I as [[I0 I1] _].
    assert (F : silence_reached (silence_chunks s) = false).
    { rewrite silence_reached_spec. apply Z.leb_gt. lia. }
    unfold silence_reached in F.
    apply Qnot_le_lt. intros C. apply Qle_bool_iff in C. congruence.
  - rewrite H0 in I. lia.
  - rewrite H0 in I. lia.
  - rewrite H0 in I. tauto.
  - rewrite H0 in I. tauto.
  - intros c w1 R F. rewrite silence_reached_spec in F. apply Z.leb_le in F.
    apply step_finalize; assumption.
  - intros c w1 R F. rewrite silence_reached_spec in F. apply Z.leb_gt in F.
    eexists. split; [apply step_recording_silence; assumption |].
    split; reflexivity.
Qed.

(** C9. A recording buffer that reaches the finalize transition holds at
    least 2 + 27 = 29 chunks, that is at least 0.87 s of audio, so for it the
    test "less than 0.5 s" of [process_audio] is false: the iteration goes
    on to the transcription call. *)
Theorem finalized_buffer_never_short
        (polls : list poll) (c : chunk) (w w' : World) (t : list event)
        (s : VoiceTyping) :
  Forall poll_ok polls -> chunk_ok c ->
  loop init polls w = (w', t, inr s) ->
  is_recording s = true ->
  silence_reached (silence_chunks s + 1) = true ->
  let buf := recording_buffer s ++ [c] in
  (29 <= length buf)%nat
  /\ (87 # 100 <= inject_Z (Z.of_nat (length buf) * CHUNK_DURATION_MS) / 1000)%Q
  /\ exists audio_np,
       to_audio_np buf = inr audio_np
       /\ (1 # 2 <= duration_sec audio_np)%Q
       /\ too_short audio_np = false
       /\ forall w1,
            process buf w1 = dispatch audio_np w1
            /\ step s (Got c false) w1
               = (emit (Print MsgProcessing) ;;
                  dispatch audio_np ;;
                  ret (idle_after (deque_append (pre_buffer s) c))) w1.
Proof.
  intros Ok Hc H R F buf.
  pose proof H as I. apply loop_state_inv in I;
    [| exact (conj init_pre_buffer_inv init_loop_inv)].
  destruct I as [_ I]. unfold loop_inv in I. rewrite R in I.
  pose proof H as C. apply loop_chunks_inv in C;
    [| exact Ok | exact (conj init_pre_buffer_inv init_chunks_inv)].
  destruct C as [_ [_ Cr]].
  rewrite silence_reached_spec in F. apply Z.leb_le in F.
  assert (Len : (29 <= length buf)%nat).
  { unfold buf. rewrite length_app. cbn [length]. lia. }
  assert (Cb : Forall chunk_ok buf).
  { apply Forall_app. split; [exact Cr | repeat constructor; exact Hc]. }
  destruct (to_audio_np_ok Cb) as [A L].
  assert (S : too_short (map normalise (List.concat (map chunk_samples buf))) = false).
  { rewrite too_short_spec, L. apply Z.ltb_ge. lia. }
  split; [exact Len |]. split.
  { unfold Qle, CHUNK_DURATION_MS. cbn. lia. }
  exists (map normalise (List.concat (map chunk_samples buf))).
  split; [exact A |]. split.
  { apply Qnot_lt_le. intros D. apply duration_short_iff in D. congruence. }
  split; [exact S |].
  intros w1. split.
  - apply process_audio_long; assumption.
  - rewrite step_finalize by assumption. fold buf.
    unfold bind, emit.
    rewrite (@process_audio_long _ model_transcribe subprocess_run language
               buf _ w1 A S).
    reflexivity.
Qed.

(** C6. A chunk sequence whose samples last less than 0.5 s is dropped by
    [process_audio]: it returns, the outside is unchanged, and no event
    (no transcription call, no injection call, no print) is left. *)
Theorem short_utterance_discarded
        (audio_data : list chunk) (audio_np : list Q) (w : World) :
  to_audio_np audio_data = inr audio_np ->
  (duration_sec audio_np < 1 # 2)%Q ->
  process audio_data w = (w, [], inr tt).
Proof.
  intros A D. apply duration_short_iff in D.
  apply process_audio_short with (audio_np := audio_np); assumption.
Qed.

End Claims.

(** The sample read from two bytes is the 16-bit two's complement number
    whose low byte is the first and whose high byte is the second. *)
Lemma int16_le_spec (lo hi : byte) :
  (int16_le lo hi mod 65536
   = Z.of_N (Byte.to_N lo) + 256 * Z.of_N (Byte.to_N hi))%Z.
Proof.
  unfold int16_le.
  pose proof (Byte.to_N_bounded lo). pose proof (Byte.to_N_bounded hi).
  set (u := (Z.of_N (Byte.to_N lo) + 256 * Z.of_N (Byte.to_N hi))%Z).
  assert (0 <= u < 65536)%Z by (unfold u; lia).
  destruct (Z.ltb_spec u 32768).
  - apply Z.mod_small. lia.
  - replace (u - 65536)%Z with (u + (-1) * 65536)%Z by lia.
    rewrite Z.mod_add by lia. apply Z.mod_small. lia.
Qed.

(** Sample [k] of a buffer comes from its bytes [2k] and [2k+1]. *)
Lemma frombuffer_int16_nth (buf : bytes) (l : list Z) (k : nat) (lo hi : byte) :
  frombuffer_int16 buf = inr l ->
  nth_error buf (2 * k) = Some lo ->
  nth_error buf (2 * k + 1) = Some hi ->
  nth_error l k = Some (int16_le lo hi).
Proof.
  revert l k. induction buf as [| x | x y buf IH] using list_pair_ind;
    intros l k H Hlo Hhi.
  - destruct k; discriminate Hlo.
  - discriminate H.
  - cbn [frombuffer_int16] in H.
    destruct (frombuffer_int16 buf) as [e | l'] eqn:E; [discriminate H |].
    injection H as <-.
    destruct k as [| k].
    + cbn in Hlo, Hhi. injection Hlo as <-. injection Hhi as <-. reflexivity.
    + replace (2 * S k)%nat with (S (S (2 * k))) in Hlo by lia.
      replace (2 * S k + 1)%nat with (S (S (2 * k + 1))) in Hhi by lia.
      cbn [nth_error] in Hlo, Hhi. cbn [nth_error].
      apply IH; [reflexivity | exact Hlo | exact Hhi].
Qed.

(** Element [i] of item [j] of a list of lists of length [n] is element
    [n * j + i] of their concatenation. *)
Lemma nth_error_concat (A : Type) (n : nat) (ls : list (list A)) (j i : nat)
      (c : list A) (x : A) :
  Forall (fun l => length l = n) ls ->
  nth_error ls j = Some c ->
  nth_error c i = Some x ->
  nth_error (List.concat ls) (n * j + i) = Some x.
Proof.
  intros H. revert j. induction H as [| l ls Hl _ IH]; intros j Hj Hi.
  - destruct j; discriminate Hj.
  - destruct j as [| j].
    + cbn in Hj. injection Hj as ->. cbn [List.concat].
      rewrite Nat.mul_0_r, Nat.add_0_l.
      rewrite nth_error_app1; [exact Hi |].
      apply nth_error_Some. congruence.
    + cbn [nth_error] in Hj. cbn [List.concat].
      rewrite nth_error_app2 by (rewrite Hl; lia).
      replace (n * S j + i - length l)%nat with (n * j + i)%nat by (rewrite Hl; lia).
      apply IH; assumption.
Qed.

(** C8. The samples handed on by the assembler are the 16-bit samples of the
    chunks, chunk after chunk in order, each divided by 32768, and each of
    them lies between -1 and 1. Sample [k] of chunk [j] is sample
    [480 * j + k] of the sequence; it is the two's complement number whose
    low byte is byte [2k] of the chunk and whose high byte is byte
    [2k + 1]. *)
Theorem samples_normalised (audio_data : list chunk) :
  Forall chunk_ok audio_data ->
  exists samples : list Z,
    frombuffer_int16 (bytes_join audio_data) = inr samples
    /\ samples = List.concat (map chunk_samples audio_data)
    /\ Forall (fun s => -32768 <= s <= 32767)%Z samples
    /\ to_audio_np audio_data = inr (map (fun s => inject_Z s / 32768) samples)
    /\ length samples = (480 * length audio_data)%nat
    /\ Forall (fun x => -1 <= x /\ x <= 1)%Q
              (map (fun s => inject_Z s / 32768) samples)
    /\ forall j c k lo hi,
         nth_error audio_data j = Some c ->
         nth_error c (2 * k) = Some lo ->
         nth_error c (2 * k + 1) = Some hi ->
         exists s : Z,
           nth_error samples (480 * j + k) = Some s
           /\ (s mod 65536
               = Z.of_N (Byte.to_N lo) + 256 * Z.of_N (Byte.to_N hi))%Z
           /\ (-32768 <= s <= 32767)%Z
           /\ forall audio_np,
                to_audio_np audio_data = inr audio_np ->
                nth_error audio_np (480 * j + k) = Some (inject_Z s / 32768).
Proof.
  intros H. destruct (frombuffer_int16_join H) as [E L].
  exists (List.concat (map chunk_samples audio_data)).
  pose proof (frombuffer_int16_range _ E) as Rg.
  split; [exact E |]. split; [reflexivity |]. split; [exact Rg |].
  split; [unfold to_audio_np; rewrite E; reflexivity |].
  split; [exact L |].
  split.
  { apply Forall_map. apply Forall_impl with (2 := Rg).
    intros a Ha. exact (normalise_range Ha). }
  intros j c k lo hi Hj Hlo Hhi.
  assert (Len : Forall (fun l : list byte => length l = 960%nat) audio_data).
  { apply Forall_impl with (2 := H). intros a Ha. apply chunk_ok_length. exact Ha. }
  pose proof (nth_error_concat _ _ Len Hj Hlo) as Blo.
  pose proof (nth_error_concat _ _ Len Hj Hhi) as Bhi.
  replace (960 * j + 2 * k)%nat with (2 * (480 * j + k))%nat in Blo by lia.
  replace (960 * j + (2 * k + 1))%nat with (2 * (480 * j + k) + 1)%nat in Bhi by lia.
  pose proof (frombuffer_int16_nth _ _ E Blo Bhi) as S.
  exists (int16_le lo hi).
  split; [exact S |]. split; [apply int16_le_spec |].
  split; [apply int16_le_range |].
  intros audio_np A. unfold to_audio_np in A. unfold bytes_join in A.
  change (frombuffer_int16 (List.concat audio_data))
    with (frombuffer_int16 (bytes_join audio_data)) in A.
  rewrite E in A. injection A as <-.
  rewrite nth_error_map, S. reflexivity.
Qed.

Section Utterances.

Variable World : Type.
Variable model_transcribe : list Q -> string -> World -> World * (exn + list Segment).
Variable subprocess_run : list string -> World -> World * (exn + unit).
Variable language : string.

Local Abbreviation step := (loop_iteration model_transcribe subprocess_run language).
Local Abbreviation loop := (run_loop model_transcribe subprocess_run language).
Local Abbreviation process := (process_audio model_transcribe subprocess_run language).
Local Abbreviation dispatch := (transcribe_and_type model_transcribe subprocess_run language).

Local Notation "x <- c ;; k" := (bind c (fun x => k))
  (at level 61, c at next level, right associativity).
Local Notation "c ;; k" := (bind c (fun _ => k))
  (at level 61, right associativity).

(** C7. When the engine returns segments, the text typed is the stripped
    texts of the segments whose stripped text is non-empty, joined with
    single spaces. If it is empty nothing is injected; otherwise the first
    injection tool is called with the text followed by one space, and
    the second tool, with the same argument, exactly when the first
    raises. *)
Theorem dispatch_joins_and_types
        (audio_np : list Q) (segments : list Segment) (w w1 : World) :
  model_transcribe audio_np language w = (w1, inr segments) ->
  let kept := filter (fun seg => truthy (strip (text seg))) segments in
  let joined := join " " (map (fun seg => strip (text seg)) kept) in
  let y := ["ydotool"; "type"; "-d1"; "-H1"; joined ++ " "]%string in
  let x := ["xdotool"; "type"; "--delay"; "10"; joined ++ " "]%string in
  full_text segments = joined
  /\ (joined = EmptyString <-> kept = [])
  /\ (joined = EmptyString ->
      dispatch audio_np w = (w1, [Transcribe audio_np language], inr tt))
  /\ (joined <> EmptyString ->
      dispatch audio_np w
      = match subprocess_run y w1 with
        | (w2, inr _) =>
            (w2, [Transcribe audio_np language; SubprocessRun y;
                  Print (MsgTyped joined)], inr tt)
        | (w2, inl _) =>
            match subprocess_run x w2 with
            | (w3, inr _) =>
                (w3, [Transcribe audio_np language; SubprocessRun y;
                      SubprocessRun x; Print (MsgTyped joined)], inr tt)
            | (w3, inl _) =>
                (w3, [Transcribe audio_np language; SubprocessRun y;
                      SubprocessRun x; Print (MsgFailedToType joined)], inr tt)
            end
        end).
Proof.
  intros E kept joined y x.
  assert (F : full_text segments = joined) by reflexivity.
  split; [exact F |]. split; [| split].
  - split.
    + intros J.
      assert (K : map (fun seg => strip (text seg)) kept = []).
      { apply join_empty with (sep := " "%string); [| exact J].
        apply Forall_map. apply Forall_forall. intros seg Hin.
        apply filter_In in Hin. tauto. }
      destruct kept; [reflexivity | discriminate K].
    + intros K. unfold joined. rewrite K. reflexivity.
  - intros J. erewrite dispatch_engine_returns by exact E. rewrite F, J. reflexivity.
  - intros J. erewrite dispatch_engine_returns by exact E. rewrite F.
    destruct (truthy joined) eqn:T.
    + rewrite type_text_cases. cbv zeta. fold y. fold x.
      destruct (subprocess_run y w1) as [w2 [e | []]]; [| reflexivity].
      destruct (subprocess_run x w2) as [w3 [e' | []]]; reflexivity.
    + apply truthy_false in T. contradiction.
Qed.

End Utterances.

Lemma snoc_of_length (A : Type) (n : nat) (l : list A) :
  length l = S n -> exists x, l = firstn n l ++ [x].
Proof.
  intros H. pose proof (firstn_skipn n l) as E.
  pose proof (length_skipn n l) as L. rewrite H in L.
  replace (S n - n)%nat with 1%nat in L by lia.
  destruct (skipn n l) as [| x [| y r]]; try discriminate L.
  exists x. symmetry. exact E.
Qed.

Lemma silent_app (a b : list chunk) : silent (a ++ b) = silent a ++ silent b.
Proof. apply map_app. Qed.

Lemma push_all_snoc (A : Type) (d : deque A) (l : list A) (x : A) :
  push_all d (l ++ [x]) = deque_append (push_all d l) x.
Proof. rewrite push_all_app. reflexivity. Qed.

Section Segmentation.

Variable World : Type.
Variable model_transcribe : list Q -> string -> World -> World * (exn + list Segment).
Variable subprocess_run : list string -> World -> World * (exn + unit).
Variable language : string.

Local Abbreviation step := (loop_iteration model_transcribe subprocess_run language).
Local Abbreviation loop := (run_loop model_transcribe subprocess_run language).
Local Abbreviation process := (process_audio model_transcribe subprocess_run language).
Local Abbreviation dispatch := (transcribe_and_type model_transcribe subprocess_run language).

Local Notation "x <- c ;; k" := (bind c (fun x => k))
  (at level 61, c at next level, right associativity).
Local Notation "c ;; k" := (bind c (fun _ => k))
  (at level 61, right associativity).

(** A run of 27 silence chunks met in Recording with the counter at 0. *)
Lemma loop_silence_finalizes (sil : list chunk) (s : VoiceTyping) (w : World) :
  is_recording s = true ->
  silence_chunks s = 0%Z ->
  length sil = 27%nat ->
  loop s (silent sil) w
  = (emit (Print MsgProcessing) ;;
     process (recording_buffer s ++ sil) ;;
     ret (idle_after (push_all (pre_buffer s) sil))) w.
Proof.
  intros R Z0 L.
  destruct (snoc_of_length _ L) as (c & E).
  assert (L26 : length (firstn 26 sil) = 26%nat) by (rewrite length_firstn; lia).
  rewrite E at 1. rewrite silent_app, loop_app. unfold bind at 1.
  rewrite loop_recording_silence by (assumption || lia).
  cbn [silent map run_loop]. unfold bind at 1.
  rewrite step_finalize
    by (cbn [is_recording silence_chunks]; (reflexivity || lia)).
  cbn [recording_buffer pre_buffer].
  rewrite <- app_assoc, <- push_all_snoc, <- E.
  unfold bind, emit, ret.
  destruct (process (recording_buffer s ++ sil) w) as [[w1 t1] [e | []]];
    cbn [app]; rewrite ?app_nil_r; reflexivity.
Qed.

(** An utterance met in Idle: onset, further speech, and fewer than 27
    silence chunks. *)
Lemma loop_utterance_open (c : chunk) (sp sil : list chunk) (s : VoiceTyping)
      (w : World) :
  is_recording s = false ->
  (length sil < 27)%nat ->
  loop s (Got c true :: spoken sp ++ silent sil) w
  = (w, [Print MsgMic],
     inr {| pre_buffer := push_all (pre_buffer s) (c :: sp ++ sil);
            recording_buffer :=
              items (deque_append (pre_buffer s) c) ++ [c] ++ sp ++ sil;
            is_recording := true;
            silence_chunks := Z.of_nat (length sil) |}).
Proof.
  intros R L. cbn [run_loop]. unfold bind at 1.
  rewrite step_onset by exact R.
  rewrite loop_app. unfold bind.
  rewrite loop_recording_speech by reflexivity.
  rewrite loop_recording_silence
    by (cbn [is_recording silence_chunks]; (reflexivity || lia)).
  cbn [pre_buffer recording_buffer silence_chunks push_all app].
  rewrite push_all_app, <- !app_assoc. reflexivity.
Qed.

(** The same utterance closed by its 27th silence chunk. *)
Lemma loop_utterance_closed (c : chunk) (sp sil : list chunk) (s : VoiceTyping)
      (w : World) :
  is_recording s = false ->
  length sil = 27%nat ->
  loop s (Got c true :: spoken sp ++ silent sil) w
  = (emit (Print MsgMic) ;;
     emit (Print MsgProcessing) ;;
     process (items (deque_append (pre_buffer s) c) ++ [c] ++ sp ++ sil) ;;
     ret (idle_after (push_all (pre_buffer s) (c :: sp ++ sil)))) w.
Proof.
  intros R L. cbn [run_loop]. unfold bind at 1.
  rewrite step_onset by exact R.
  rewrite loop_app. unfold bind at 1.
  rewrite loop_recording_speech by reflexivity.
  rewrite loop_silence_finalizes by (assumption || reflexivity).
  cbn [pre_buffer recording_buffer push_all].
  rewrite push_all_app, <- !app_assoc.
  unfold bind, emit, ret. cbn [app].
  destruct (process _ w) as [[w1 t1] [e | []]];
    cbn [app]; rewrite ?app_nil_r; reflexivity.
Qed.

(** C3. After any iteration on a speech chunk the program is in Recording
    with the counter at 0. Of the silence chunks that follow, each of the
    first 26 leaves it in Recording with nothing handed over, and the
    27th (27 is the ceiling of 0.8 / 0.03) prints, hands the buffer to
    [process_audio] and resets to Idle, where further silence does
    nothing. *)
Theorem finalize_on_27th_silence
        (s0 : VoiceTyping) (c0 : chunk) (sil : list chunk) (w : World) :
  length sil = 27%nat ->
  Qceiling (SILENCE_DURATION_SEC / (inject_Z CHUNK_DURATION_MS / 1000)) = 27%Z
  /\ exists t1 s1,
       step s0 (Got c0 true) w = (w, t1, inr s1)
       /\ is_recording s1 = true
       /\ silence_chunks s1 = 0%Z
       /\ (forall k, (k < 27)%nat ->
             loop s1 (silent (firstn k sil)) w
             = (w, [],
                inr {| pre_buffer := push_all (pre_buffer s1) (firstn k sil);
                       recording_buffer := recording_buffer s1 ++ firstn k sil;
                       is_recording := true;
                       silence_chunks := Z.of_nat k |}))
       /\ loop s1 (silent sil) w
          = (emit (Print MsgProcessing) ;;
             process (recording_buffer s1 ++ sil) ;;
             ret (idle_after (push_all (pre_buffer s1) sil))) w
       /\ forall more d w1,
            loop (idle_after d) (silent more) w1
            = (w1, [], inr (idle_after (push_all d more))).
Proof.
  intros L. split; [reflexivity |].
  assert (S1 : exists t1 s1,
             step s0 (Got c0 true) w = (w, t1, inr s1)
             /\ is_recording s1 = true /\ silence_chunks s1 = 0%Z).
  { destruct (is_recording s0) eqn:R.
    - rewrite step_recording_speech by exact R. eauto.
    - rewrite step_onset by exact R. eauto. }
  destruct S1 as (t1 & s1 & E & R1 & Z1).
  exists t1, s1. repeat split; try assumption.
  - intros k Hk.
    assert (Lk : length (firstn k sil) = k) by (rewrite length_firstn; lia).
    rewrite loop_recording_silence by (assumption || lia).
    rewrite Z1, Lk. reflexivity.
  - apply loop_silence_finalizes; assumption.
  - intros more d w1. rewrite loop_idle_silence by reflexivity. reflexivity.
Qed.

End Segmentation.

Section Scenario.

Variable World : Type.
Variable model_transcribe : list Q -> string -> World -> World * (exn + list Segment).
Variable subprocess_run : list string -> World -> World * (exn + unit).
Variable language : string.

Local Abbreviation step := (loop_iteration model_transcribe subprocess_run language).
Local Abbreviation loop := (run_loop model_transcribe subprocess_run language).
Local Abbreviation process := (process_audio model_transcribe subprocess_run language).
Local Abbreviation dispatch := (transcribe_and_type model_transcribe subprocess_run language).

Local Notation "x <- c ;; k" := (bind c (fun x => k))
  (at level 61, c at next level, right associativity).
Local Notation "c ;; k" := (bind c (fun _ => k))
  (at level 61, right associativity).

(** The buffer with which a recording starts when the program was idle
    since its start: the last 50 of the chunks pushed, the onset chunk
    among them, and the onset chunk once more. *)
Lemma onset_items (before : list chunk) (c : chunk) :
  items (deque_append (push_all (pre_buffer init) before) c)
  = lastn PRE_BUFFER_MAXLEN (before ++ [c]).
Proof.
  rewrite <- push_all_snoc, push_all_items by (cbn; lia). reflexivity.
Qed.

(** C5. 100 silence chunks, 40 speech chunks, 30 silence chunks, all of
    480 samples: nothing starts during the leading silence, recording
    starts on the first speech chunk, the first 26 trailing silence chunks
    hand nothing over, the 27th hands over a buffer of 117 chunks (3.51 s,
    56160 samples), which is not too short and goes to the transcription
    engine; the last three silence chunks find the program idle. *)
Theorem scenario_100_40_30 (sil1 sp sil2 : list chunk) (w : World) :
  length sil1 = 100%nat -> length sp = 40%nat -> length sil2 = 30%nat ->
  Forall chunk_ok (sil1 ++ sp ++ sil2) ->
  let buf := lastn PRE_BUFFER_MAXLEN (sil1 ++ firstn 1 sp) ++ sp ++ firstn 27 sil2 in
  (forall k, exists s,
      loop init (silent (firstn k sil1)) w = (w, [], inr s)
      /\ is_recording s = false)
  /\ (exists s,
        loop init (silent sil1 ++ spoken (firstn 1 sp)) w = (w, [Print MsgMic], inr s)
        /\ is_recording s = true)
  /\ (forall k, (k < 27)%nat -> exists s,
        loop init (silent sil1 ++ spoken sp ++ silent (firstn k sil2)) w
        = (w, [Print MsgMic], inr s)
        /\ is_recording s = true)
  /\ loop init (silent sil1 ++ spoken sp ++ silent (firstn 27 sil2)) w
     = (emit (Print MsgMic) ;;
        emit (Print MsgProcessing) ;;
        process buf ;;
        ret (idle_after
               (push_all (pre_buffer init) (sil1 ++ sp ++ firstn 27 sil2)))) w
  /\ length buf = 117%nat
  /\ (inject_Z (Z.of_nat (length buf) * CHUNK_DURATION_MS) / 1000 == 351 # 100)%Q
  /\ exists audio_np,
       to_audio_np buf = inr audio_np
       /\ Z.of_nat (length audio_np) = 56160%Z
       /\ (duration_sec audio_np == 351 # 100)%Q
       /\ too_short audio_np = false
       /\ (forall w1,
             process buf w1 = dispatch audio_np w1
             /\ exists w2 t r,
                  dispatch audio_np w1 = (w2, Transcribe audio_np language :: t, r))
       /\ loop init (silent sil1 ++ spoken sp ++ silent sil2) w
          = (emit (Print MsgMic) ;;
             emit (Print MsgProcessing) ;;
             dispatch audio_np ;;
             ret (idle_after (push_all (pre_buffer init) (sil1 ++ sp ++ sil2)))) w.
Proof.
  intros L1 Lp L2 Ok buf.
  destruct sp as [| c sp]; [discriminate Lp |].
  cbn [length] in Lp. assert (Lp' : length sp = 39%nat) by lia.
  change (firstn 1 (c :: sp)) with [c] in buf.
  assert (I0 : is_recording (set_pre_buffer init (push_all (pre_buffer init) sil1)) = false)
    by reflexivity.
  assert (Lb : length buf = 117%nat).
  { unfold buf. rewrite !length_app, lastn_length, length_app, length_firstn.
    cbn [length]. rewrite PRE_BUFFER_MAXLEN_value. lia. }
  assert (Eb : buf = items (deque_append (push_all (pre_buffer init) sil1) c)
                      ++ [c] ++ sp ++ firstn 27 sil2).
  { unfold buf. rewrite onset_items. reflexivity. }
  assert (Cb : Forall chunk_ok buf).
  { apply Forall_app in Ok. destruct Ok as [O1 O2].
    apply Forall_app in O2. destruct O2 as [O2 O3].
    unfold buf. apply Forall_app. split.
    - apply Forall_lastn, Forall_app. split; [exact O1 |].
      inversion O2; subst. repeat constructor; assumption.
    - apply Forall_app. split; [exact O2 |].
      rewrite <- (firstn_skipn 27 sil2) in O3. apply Forall_app in O3. tauto. }
  destruct (to_audio_np_ok Cb) as [A La].
  set (audio_np := map normalise (List.concat (map chunk_samples buf))) in *.
  assert (S : too_short audio_np = false).
  { rewrite too_short_spec, La, Lb. reflexivity. }
  assert (Closed : loop init (silent sil1 ++ spoken (c :: sp) ++ silent (firstn 27 sil2)) w
     = (emit (Print MsgMic) ;;
        emit (Print MsgProcessing) ;;
        process buf ;;
        ret (idle_after
               (push_all (pre_buffer init) (sil1 ++ (c :: sp) ++ firstn 27 sil2)))) w).
  { rewrite loop_app. unfold bind at 1.
    rewrite loop_idle_silence by reflexivity.
    cbn [spoken map app].
    rewrite loop_utterance_closed by (try exact I0; rewrite length_firstn; lia).
    cbn [pre_buffer set_pre_buffer]. rewrite <- Eb, <- push_all_app.
    unfold bind, emit, ret.
    destruct (process buf w) as [[w1 t1] [e | []]]; reflexivity. }
  split.
  { intros k. rewrite loop_idle_silence by reflexivity. eauto. }
  split.
  { change (firstn 1 (c :: sp)) with [c].
    cbn [spoken map]. rewrite loop_app. unfold bind.
    rewrite loop_idle_silence by reflexivity.
    cbn [run_loop]. unfold bind. rewrite step_onset by exact I0.
    eexists. split; reflexivity. }
  split.
  { intros k Hk. rewrite loop_app. unfold bind.
    rewrite loop_idle_silence by reflexivity.
    cbn [spoken map app].
    rewrite loop_utterance_open by (try exact I0; rewrite length_firstn; lia).
    eexists. split; reflexivity. }
  split; [exact Closed |].
  split; [exact Lb |].
  split; [rewrite Lb; reflexivity |].
  exists audio_np.
  split; [exact A |].
  split; [rewrite La, Lb; reflexivity |].
  split; [unfold duration_sec; rewrite La, Lb; reflexivity |].
  split; [exact S |].
  split.
  { intros w1. split; [apply process_audio_long; assumption | apply dispatch_calls_engine]. }
  rewrite <- (firstn_skipn 27 sil2) at 1.
  rewrite silent_app.
  replace (silent sil1 ++ spoken (c :: sp) ++ silent (firstn 27 sil2) ++ silent (skipn 27 sil2))
    with ((silent sil1 ++ spoken (c :: sp) ++ silent (firstn 27 sil2)) ++ silent (skipn 27 sil2))
    by (rewrite <- !app_assoc; reflexivity).
  rewrite loop_app. unfold bind at 1. rewrite Closed.
  unfold bind, emit, ret.
  rewrite (@process_audio_long _ model_transcribe subprocess_run language buf _ w A S).
  destruct (dispatch audio_np w) as [[w1 t1] [e | []]]; [reflexivity |].
  rewrite loop_idle_silence by reflexivity.
  cbn [set_pre_buffer idle_after pre_buffer recording_buffer is_recording silence_chunks].
  rewrite <- push_all_app, <- !app_assoc, firstn_skipn.
  cbn [app]. rewrite ?app_nil_r. reflexivity.
Qed.
End Scenario.

Lemma tone_ok (n : nat) : chunk_ok (Demo.tone n).
Proof. unfold chunk_ok, Demo.tone. rewrite repeat_length. reflexivity. Qed.

Lemma tones_ok (first count : nat) : Forall chunk_ok (Demo.tones first count).
Proof. apply Forall_map, Forall_forall. intros n _. apply tone_ok. Qed.

Lemma lastn_snoc (A : Type) (n : nat) (l : list A) (x : A) :
  lastn (S n) (l ++ [x]) = lastn n l ++ [x].
Proof.
  unfold lastn. rewrite length_app. cbn [length].
  replace (length l + 1 - S n)%nat with (length l - n)%nat by lia.
  rewrite skipn_app.
  replace (length l - n - length l)%nat with 0%nat by lia.
  reflexivity.
Qed.

Section Onset.

Variable World : Type.
Variable model_transcribe : list Q -> string -> World -> World * (exn + list Segment).
Variable subprocess_run : list string -> World -> World * (exn + unit).
Variable language : string.

Local Abbreviation step := (loop_iteration model_transcribe subprocess_run language).
Local Abbreviation loop := (run_loop model_transcribe subprocess_run language).
Local Abbreviation process := (process_audio model_transcribe subprocess_run language).
Local Abbreviation dispatch := (transcribe_and_type model_transcribe subprocess_run language).

Local Notation "x <- c ;; k" := (bind c (fun x => k))
  (at level 61, c at next level, right associativity).
Local Notation "c ;; k" := (bind c (fun _ => k))
  (at level 61, right associativity).

(** Silence since the start, then a speech chunk: the buffer the recording
    starts with is the last 49 silence chunks and the speech chunk twice,
    once from the pre-buffer, into which line 147 has already put it, and
    once from line 157. *)
Lemma onset_after_silence (sil : list chunk) (c : chunk) (w : World) :
  loop init (silent sil ++ [Got c true]) w
  = (w, [Print MsgMic],
     inr {| pre_buffer := push_all (pre_buffer init) (sil ++ [c]);
            recording_buffer := lastn 49 sil ++ [c; c];
            is_recording := true;
            silence_chunks := 0 |}).
Proof.
  rewrite loop_app. unfold bind.
  rewrite loop_idle_silence by reflexivity.
  cbn [run_loop]. unfold bind. rewrite step_onset by reflexivity.
  cbn [pre_buffer set_pre_buffer].
  rewrite onset_items, PRE_BUFFER_MAXLEN_value, lastn_snoc, push_all_snoc.
  rewrite <- app_assoc. reflexivity.
Qed.

(** A whole utterance met in Idle, made of well-formed chunks, reaches the
    transcription engine. *)
Lemma loop_utterance_dispatch (c : chunk) (sp sil : list chunk)
      (s : VoiceTyping) (w : World) :
  is_recording s = false ->
  (length (items (pre_buffer s)) <= maxlen (pre_buffer s))%nat ->
  Forall chunk_ok (items (pre_buffer s) ++ c :: sp ++ sil) ->
  length sil = 27%nat ->
  exists audio_np,
    to_audio_np (items (deque_append (pre_buffer s) c) ++ [c] ++ sp ++ sil)
    = inr audio_np
    /\ too_short audio_np = false
    /\ loop s (Got c true :: spoken sp ++ silent sil) w
       = (emit (Print MsgMic) ;;
          emit (Print MsgProcessing) ;;
          dispatch audio_np ;;
          ret (idle_after (push_all (pre_buffer s) (c :: sp ++ sil)))) w.
Proof.
  intros R B Ok L.
  apply Forall_app in Ok. destruct Ok as [Op Oc].
  assert (Cb : Forall chunk_ok
                 (items (deque_append (pre_buffer s) c) ++ [c] ++ sp ++ sil)).
  { apply Forall_app. split; [| exact Oc].
    rewrite deque_append_items by exact B.
    apply Forall_lastn, Forall_app. split; [exact Op |].
    inversion Oc; subst. repeat constructor; assumption. }
  destruct (to_audio_np_ok Cb) as [A La].
  eexists. split; [exact A |].
  assert (S : too_short
                (map normalise
                   (List.concat
                      (map chunk_samples
                         (items (deque_append (pre_buffer s) c) ++ [c] ++ sp ++ sil))))
              = false).
  { rewrite too_short_spec, La, !length_app, L. apply Z.ltb_ge. lia. }
  split; [exact S |].
  rewrite loop_utterance_closed by assumption.
  unfold bind, emit.
  rewrite (@process_audio_long _ model_transcribe subprocess_run language _ _ w A S).
  reflexivity.
Qed.

End Onset.

(** ** Two defects, at concrete inputs *)

(** With this engine and these tools every dispatch comes back, whatever
    the audio: both tools raise and [type_text] reports the failure. *)
Lemma demo_dispatch_survives (audio_np : list Q) (w : nat) :
  transcribe_and_type Demo.engine_returns Demo.tool_missing "en" audio_np w
  = (S (S (S w)),
     [Transcribe audio_np "en";
      SubprocessRun ["ydotool"; "type"; "-d1"; "-H1"; "hello world "]%string;
      SubprocessRun ["xdotool"; "type"; "--delay"; "10"; "hello world "]%string;
      Print (MsgFailedToType "hello world")],
     inr tt).
Proof. reflexivity. Qed.

Lemma utterance_ok : Forall poll_ok Demo.utterance.
Proof.
  constructor; [apply tone_ok |].
  apply Forall_map. exact (tones_ok 0 27).
Qed.

(** C1. Fifty silence chunks and then a speech chunk, from the start: the
    recording buffer is the last 49 silence chunks followed by the speech
    chunk twice; it is not the last 50 silence chunks followed by the speech
    chunk. *)
Theorem onset_buffer_repeats_trigger :
  exists s,
    run_loop Demo.engine_returns Demo.tool_works "en" init
             (silent (Demo.tones 0 50) ++ [Got (Demo.tone 200) true]) 0%nat
    = (0%nat, [Print MsgMic], inr s)
    /\ Forall chunk_ok (Demo.tones 0 50 ++ [Demo.tone 200])
    /\ recording_buffer s
       = lastn 49 (Demo.tones 0 50) ++ [Demo.tone 200; Demo.tone 200]
    /\ recording_buffer s
       <> lastn 50 (Demo.tones 0 50) ++ [Demo.tone 200]
    /\ hd [] (recording_buffer s) = Demo.tone 1
    /\ skipn 49 (recording_buffer s) = [Demo.tone 200; Demo.tone 200].
Proof.
  eexists. split; [apply onset_after_silence |].
  cbn [recording_buffer].
  split.
  { apply Forall_app. split; [apply tones_ok | repeat constructor; apply tone_ok]. }
  split; [reflexivity |].
  split.
  { intros E. apply (f_equal (fun l => hd x00 (hd [] l))) in E.
    vm_compute in E. discriminate E. }
  split; reflexivity.
Qed.

(** C2. Two utterances. When the transcription engine raises on the first
    one, the exception leaves the loop, [run] passes it on after [cleanup],
    and the second utterance is never looked at. When instead both injection
    tools raise, the failure is printed and the second utterance is
    processed like the first. *)
Theorem transcription_failure_ends_loop :
  Forall poll_ok (Demo.utterance ++ Demo.utterance)
  /\ (exists audio_np,
        run_loop Demo.engine_raises Demo.tool_works "en" init
                 (Demo.utterance ++ Demo.utterance) 0%nat
        = (1%nat,
           [Print MsgMic; Print MsgProcessing; Transcribe audio_np "en"],
           inl (Exception "transcription failed"))
        /\ run Demo.engine_raises Demo.tool_works "en"
               (Demo.utterance ++ Demo.utterance) 0%nat
           = (1%nat,
              [Print MsgBanner; Print MsgMic; Print MsgProcessing;
               Transcribe audio_np "en";
               StopStream; CloseStream; Terminate; Print MsgStopped],
              inl (Exception "transcription failed")))
  /\ (exists audio_1 audio_2 s,
        let failed :=
          [SubprocessRun ["ydotool"; "type"; "-d1"; "-H1"; "hello world "]%string;
           SubprocessRun ["xdotool"; "type"; "--delay"; "10"; "hello world "]%string;
           Print (MsgFailedToType "hello world")] in
        run_loop Demo.engine_returns Demo.tool_missing "en" init
                 (Demo.utterance ++ Demo.utterance) 0%nat
        = (6%nat,
           [Print MsgMic; Print MsgProcessing; Transcribe audio_1 "en"] ++ failed
           ++ [Print MsgMic; Print MsgProcessing; Transcribe audio_2 "en"] ++ failed,
           inr s)
        /\ is_recording s = false).
Proof.
  assert (U : forall mt sr (s : VoiceTyping) (w : nat),
             is_recording s = false ->
             (length (items (pre_buffer s)) <= maxlen (pre_buffer s))%nat ->
             Forall chunk_ok (items (pre_buffer s)) ->
             exists audio_np,
               run_loop mt sr "en" s Demo.utterance w
               = bind (emit (Print MsgMic)) (fun _ =>
                 bind (emit (Print MsgProcessing)) (fun _ =>
                 bind (transcribe_and_type mt sr "en" audio_np) (fun _ =>
                 ret (idle_after
                        (push_all (pre_buffer s)
                           (Demo.tone 200 :: [] ++ Demo.tones 0 27)))))) w).
  { intros mt sr s w R B Ok.
    destruct (@loop_utterance_dispatch nat mt sr "en"%string (Demo.tone 200) []
                (Demo.tones 0 27) s w R B) as (a & _ & _ & E).
    - apply Forall_app. split; [exact Ok |].
      constructor; [apply tone_ok | apply tones_ok].
    - reflexivity.
    - exists a. exact E. }
  split.
  { apply Forall_app. split; apply utterance_ok. }
  split.
  - destruct (U Demo.engine_raises Demo.tool_works init 0%nat) as (a & E);
      [reflexivity | cbn; lia | constructor |].
    exists a.
    assert (L : run_loop Demo.engine_raises Demo.tool_works "en" init
                  (Demo.utterance ++ Demo.utterance) 0%nat
                = (1%nat, [Print MsgMic; Print MsgProcessing; Transcribe a "en"],
                   inl (Exception "transcription failed"))).
    { rewrite loop_app. unfold bind at 1. rewrite E. reflexivity. }
    split; [exact L |].
    unfold run. unfold bind at 1. unfold emit at 1. cbv beta iota.
    unfold try_finally, try_except. unfold bind at 1.
    rewrite L. reflexivity.
  - destruct (U Demo.engine_returns Demo.tool_missing init 0%nat) as (a1 & E1);
      [reflexivity | cbn; lia | constructor |].
    set (s1 := idle_after (push_all (pre_buffer init)
                             (Demo.tone 200 :: [] ++ Demo.tones 0 27))) in *.
    destruct (U Demo.engine_returns Demo.tool_missing s1 3%nat) as (a2 & E2).
    + reflexivity.
    + unfold s1. cbn [pre_buffer idle_after].
      rewrite push_all_items, push_all_maxlen by (cbn; lia).
      rewrite lastn_length. lia.
    + unfold s1. cbn [pre_buffer idle_after].
      rewrite push_all_items by (cbn; lia).
      apply Forall_lastn. constructor; [apply tone_ok | apply tones_ok].
    + exists a1, a2. eexists. cbv zeta.
      rewrite loop_app. unfold bind at 1. rewrite E1.
      unfold bind at 1 2 3, emit, ret. rewrite demo_dispatch_survives.
      fold s1. rewrite E2.
      unfold bind, emit, ret. rewrite demo_dispatch_survives.
      split; reflexivity.
Qed.

(** ** The theorems at concrete inputs *)

Lemma open_utterance_ok : Forall poll_ok Demo.open_utterance.
Proof.
  constructor; [apply tone_ok |].
  apply Forall_map. exact (tones_ok 0 26).
Qed.

Lemma pre_buffer_holds_last_chunks_witness :
  run_loop Demo.engine_returns Demo.tool_works "en" init
           (silent (Demo.tones 0 60)) 0%nat
  = (0%nat, [],
     inr (set_pre_buffer init (push_all (pre_buffer init) (Demo.tones 0 60))))
  /\ items (push_all (pre_buffer init) (Demo.tones 0 60))
     = lastn (Nat.min (length (chunks_of (silent (Demo.tones 0 60))))
                      PRE_BUFFER_MAXLEN)
             (chunks_of (silent (Demo.tones 0 60))).
Proof.
  assert (H : run_loop Demo.engine_returns Demo.tool_works "en" init
                (silent (Demo.tones 0 60)) 0%nat
              = (0%nat, [],
                 inr (set_pre_buffer init
                        (push_all (pre_buffer init) (Demo.tones 0 60)))))
    by (vm_compute; reflexivity).
  split; [exact H |].
  exact (proj1 (proj2 (proj2 (proj2
           (@pre_buffer_holds_last_chunks _ _ _ _ _ _ _ _ _ H))))).
Defined.

Lemma loop_start_invariant_witness :
  run_loop Demo.engine_returns Demo.tool_works "en" init Demo.open_utterance 0%nat
  = (0%nat, [Print MsgMic], inr Demo.recording_26)
  /\ (silence_duration 26 < SILENCE_DURATION_SEC)%Q
  /\ (0 <= 26 <= 26)%Z.
Proof.
  assert (H : run_loop Demo.engine_returns Demo.tool_works "en" init
                Demo.open_utterance 0%nat
              = (0%nat, [Print MsgMic], inr Demo.recording_26))
    by (vm_compute; reflexivity).
  split; [exact H |].
  exact (proj1 (@loop_start_invariant _ _ _ _ _ _ _ _ _ H) eq_refl).
Defined.

Lemma finalized_buffer_never_short_witness :
  chunk_ok (Demo.tone 26)
  /\ is_recording Demo.recording_26 = true
  /\ silence_reached (silence_chunks Demo.recording_26 + 1) = true
  /\ (29 <= length (recording_buffer Demo.recording_26 ++ [Demo.tone 26]))%nat.
Proof.
  assert (H : run_loop Demo.engine_returns Demo.tool_works "en" init
                Demo.open_utterance 0%nat
              = (0%nat, [Print MsgMic], inr Demo.recording_26))
    by (vm_compute; reflexivity).
  assert (C : chunk_ok (Demo.tone 26)) by (vm_compute; reflexivity).
  split; [exact C |]. split; [reflexivity |]. split; [reflexivity |].
  exact (proj1 (@finalized_buffer_never_short _ _ _ _ _ _ _ _ _ _
                  open_utterance_ok C H eq_refl eq_refl)).
Defined.

Lemma short_utterance_discarded_witness :
  process_audio Demo.engine_returns Demo.tool_works "en"
                [Demo.tone 1; Demo.tone 2] 0%nat
  = (0%nat, [], inr tt).
Proof.
  eapply short_utterance_discarded; vm_compute; reflexivity.
Defined.

Lemma samples_normalised_witness :
  exists samples : list Z,
    frombuffer_int16 (bytes_join [Demo.tone 1; Demo.tone 128]) = inr samples
    /\ length samples = 960%nat
    /\ nth_error samples 0 = Some 257%Z
    /\ nth_error samples 480 = Some (-32640)%Z
    /\ forall audio_np,
         to_audio_np [Demo.tone 1; Demo.tone 128] = inr audio_np ->
         nth_error audio_np 0 = Some (257 # 32768)
         /\ nth_error audio_np 480 = Some (-32640 # 32768).
Proof.
  assert (H : Forall chunk_ok [Demo.tone 1; Demo.tone 128])
    by (repeat constructor; vm_compute; reflexivity).
  destruct (samples_normalised H) as (samples & E & _ & _ & _ & L & _ & N).
  destruct (N 0%nat (Demo.tone 1) 0%nat x01 x01 eq_refl eq_refl eq_refl)
    as (s0 & S0 & M0 & R0 & A0).
  destruct (N 1%nat (Demo.tone 128) 0%nat x80 x80 eq_refl eq_refl eq_refl)
    as (s1 & S1 & M1 & R1 & A1).
  assert (V0 : s0 = 257%Z).
  { cbn in M0. revert M0 R0. clear. intros M0 R0.
    Z.to_euclidean_division_equations. lia. }
  assert (V1 : s1 = (-32640)%Z).
  { cbn in M1. revert M1 R1. clear. intros M1 R1.
    Z.to_euclidean_division_equations. lia. }
  subst s0 s1.
  exists samples. split; [exact E |]. split; [exact L |].
  split; [exact S0 |]. split; [exact S1 |].
  intros audio_np A. split; [exact (A0 audio_np A) | exact (A1 audio_np A)].
Defined.

Lemma dispatch_joins_and_types_witness :
  Demo.engine_returns [] "en"%string 0%nat
  = (1%nat, inr [mkSegment " hello "; mkSegment "  "; mkSegment "world"])
  /\ transcribe_and_type Demo.engine_returns Demo.tool_works "en" [] 0%nat
     = (2%nat,
        [Transcribe [] "en";
         SubprocessRun ["ydotool"; "type"; "-d1"; "-H1"; "hello world "]%string;
         Print (MsgTyped "hello world")],
        inr tt).
Proof.
  split; [reflexivity |].
  refine (proj2 (proj2 (proj2
            (@dispatch_joins_and_types nat Demo.engine_returns Demo.tool_works
               "en"%string [] _ 0%nat 1%nat eq_refl))) _).
  vm_compute. discriminate.
Defined.

Lemma finalize_on_27th_silence_witness :
  length (Demo.tones 0 27) = 27%nat
  /\ exists t1 s1,
       loop_iteration Demo.engine_returns Demo.tool_works "en" init
                      (Got (Demo.tone 200) true) 0%nat
       = (0%nat, t1, inr s1)
       /\ run_loop Demo.engine_returns Demo.tool_works "en" s1
                   (silent (Demo.tones 0 27)) 0%nat
          = bind (emit (Print MsgProcessing))
                 (fun _ =>
                    bind (process_audio Demo.engine_returns Demo.tool_works "en"
                            (recording_buffer s1 ++ Demo.tones 0 27))
                         (fun _ =>
                            ret (idle_after
                                   (push_all (pre_buffer s1) (Demo.tones 0 27)))))
                 0%nat.
Proof.
  split; [reflexivity |].
  destruct (proj2 (@finalize_on_27th_silence nat Demo.engine_returns
                     Demo.tool_works "en"%string init (Demo.tone 200)
                     (Demo.tones 0 27) 0%nat eq_refl))
    as (t1 & s1 & A & _ & _ & _ & B & _).
  exists t1, s1. split; [exact A | exact B].
Defined.

Lemma scenario_chunks_ok :
  Forall chunk_ok (Demo.tones 0 100 ++ Demo.tones 100 40 ++ Demo.tones 140 30).
Proof. repeat (apply Forall_app; split); apply tones_ok. Qed.

Lemma scenario_100_40_30_witness :
  length (Demo.tones 0 100) = 100%nat
  /\ length (Demo.tones 100 40) = 40%nat
  /\ length (Demo.tones 140 30) = 30%nat
  /\ length (lastn PRE_BUFFER_MAXLEN
               (Demo.tones 0 100 ++ firstn 1 (Demo.tones 100 40))
             ++ Demo.tones 100 40 ++ firstn 27 (Demo.tones 140 30))
     = 117%nat.
Proof.
  split; [reflexivity |]. split; [reflexivity |]. split; [reflexivity |].
  exact (proj1 (proj2 (proj2 (proj2 (proj2
           (@scenario_100_40_30 nat Demo.engine_returns Demo.tool_works
              "en"%string (Demo.tones 0 100) (Demo.tones 100 40)
              (Demo.tones 140 30) 0%nat eq_refl eq_refl eq_refl
              scenario_chunks_ok)))))).
Defined.

(** * Further properties of the program *)

Lemma streak_app (a b : list poll) (n : Z) :
  silence_streak n (a ++ b) = silence_streak (silence_streak n a) b.
Proof. apply fold_left_app. Qed.

Section Further.

Variable World : Type.
Variable model_transcribe : list Q -> string -> World -> World * (exn + list Segment).
Variable subprocess_run : list string -> World -> World * (exn + unit).
Variable language : string.

Local Abbreviation step := (loop_iteration model_transcribe subprocess_run language).
Local Abbreviation loop := (run_loop model_transcribe subprocess_run language).
Local Abbreviation process := (process_audio model_transcribe subprocess_run language).
Local Abbreviation dispatch := (transcribe_and_type model_transcribe subprocess_run language).
Local Abbreviation typing := (type_text subprocess_run).
Local Abbreviation running := (run model_transcribe subprocess_run language).

Local Notation "x <- c ;; k" := (bind c (fun x => k))
  (at level 61, c at next level, right associativity).
Local Notation "c ;; k" := (bind c (fun _ => k))
  (at level 61, right associativity).

(** X1. [type_text] never raises, whatever the tools raise (the bare
    [except:] also swallows KeyboardInterrupt and SystemExit). It calls
    ydotool first; it calls xdotool exactly when ydotool raised; it prints
    the success mark exactly when one of the two returned, and the failure
    line exactly when both raised. Both tools get the text followed by one
    space. *)
Theorem type_text_contains_failures (t : string) (w : World) :
  let y := ["ydotool"; "type"; "-d1"; "-H1"; t ++ " "]%string in
  let x := ["xdotool"; "type"; "--delay"; "10"; t ++ " "]%string in
  exists w' tr,
    type_text subprocess_run t w = (w', tr, inr tt)
    /\ (forall w1 u, subprocess_run y w = (w1, inr u) ->
        w' = w1 /\ tr = [SubprocessRun y; Print (MsgTyped t)])
    /\ (forall w1 e w2 u,
          subprocess_run y w = (w1, inl e) ->
          subprocess_run x w1 = (w2, inr u) ->
          w' = w2 /\ tr = [SubprocessRun y; SubprocessRun x; Print (MsgTyped t)])
    /\ (forall w1 e w2 e',
          subprocess_run y w = (w1, inl e) ->
          subprocess_run x w1 = (w2, inl e') ->
          w' = w2
          /\ tr = [SubprocessRun y; SubprocessRun x; Print (MsgFailedToType t)]).
Proof.
  intros y x. rewrite type_text_cases. cbv zeta. fold y. fold x.
  destruct (subprocess_run y w) as [w1 [e | []]] eqn:Ey.
  - destruct (subprocess_run x w1) as [w2 [e' | []]] eqn:Ex;
      eexists _, _; (split; [reflexivity |]); (split; [| split]).
    + intros w3 u H. discriminate H.
    + intros w3 e0 w4 u H H0. injection H as <- <-. rewrite Ex in H0.
      discriminate H0.
    + intros w3 e0 w4 e1 H H0. injection H as <- <-. rewrite Ex in H0.
      injection H0 as <- _. split; reflexivity.
    + intros w3 u H. discriminate H.
    + intros w3 e0 w4 u H H0. injection H as <- <-. rewrite Ex in H0.
      injection H0 as <-. split; reflexivity.
    + intros w3 e0 w4 e1 H H0. injection H as <- <-. rewrite Ex in H0.
      discriminate H0.
  - eexists _, _. split; [reflexivity |]. split; [| split].
    + intros w3 u H. injection H as <-. split; reflexivity.
    + intros w3 e0 w4 u H. discriminate H.
    + intros w3 e0 w4 e1 H. discriminate H.
Qed.

(** X2. When an exception leaves the loop, [run] stops the stream, closes
    it and terminates the audio interface, once and in this order, and
    prints its last line. A KeyboardInterrupt is then swallowed and [run]
    returns; any other exception (the SystemExit of the signal handler
    among them) is raised again after the cleanup. *)
Theorem run_always_cleans_up
        (polls : list poll) (w w' : World) (t : list event) (e : exn) :
  loop init polls w = (w', t, inl e) ->
  running polls w
  = (w',
     Print MsgBanner :: t ++ [StopStream; CloseStream; Terminate; Print MsgStopped],
     match e with KeyboardInterrupt => inr tt | _ => inl e end).
Proof.
  intros H. unfold run. unfold bind at 1. unfold emit at 1. cbv beta iota.
  unfold try_finally, try_except. unfold bind at 1. rewrite H.
  destruct e; cbn; rewrite ?app_nil_r; reflexivity.
Qed.

(** While recording, polls that neither raise nor complete a streak of 27
    silence chunks leave no event; every chunk is appended once. *)
Lemma loop_no_finalize (polls : list poll) (s : VoiceTyping) (w : World) :
  is_recording s = true ->
  stays_recording (silence_chunks s) polls = true ->
  loop s polls w
  = (w, [],
     inr {| pre_buffer := push_all (pre_buffer s) (chunks_of polls);
            recording_buffer := recording_buffer s ++ chunks_of polls;
            is_recording := true;
            silence_chunks := silence_streak (silence_chunks s) polls |}).
Proof.
  revert s. induction polls as [| p polls IH]; intros s R H.
  - destruct s; cbn in *. subst. rewrite app_nil_r. reflexivity.
  - destruct p as [| c [|] | e].
    + rewrite loop_QueueEmpty. cbn [stays_recording] in H.
      rewrite IH by assumption. reflexivity.
    + cbn [stays_recording] in H. cbn [run_loop]. unfold bind.
      rewrite step_recording_speech by exact R.
      rewrite IH by (cbn [is_recording silence_chunks]; (reflexivity || exact H)).
      cbn [pre_buffer recording_buffer silence_chunks chunks_of flat_map app
           push_all silence_streak fold_left streak_step].
      rewrite <- app_assoc. reflexivity.
    + cbn [stays_recording] in H. apply andb_prop in H. destruct H as [L H].
      apply Z.ltb_lt in L.
      cbn [run_loop]. unfold bind.
      rewrite step_recording_silence by assumption.
      rewrite IH by (cbn [is_recording silence_chunks]; (reflexivity || exact H)).
      cbn [pre_buffer recording_buffer silence_chunks chunks_of flat_map app
           push_all silence_streak fold_left streak_step].
      rewrite <- app_assoc. reflexivity.
    + discriminate H.
Qed.

(** X3. After a speech chunk, whatever the state before it, chunks of
    either kind are all appended to the recording buffer, once each and in
    order, and nothing is printed or handed over, as long as no 27 silence
    chunks come in a row: a speech chunk puts the silence counter back to 0
    however high it was. *)
Theorem recording_appends_every_chunk
        (s0 : VoiceTyping) (c : chunk) (body : list poll) (w : World) :
  stays_recording 0 body = true ->
  exists t1 s1,
    step s0 (Got c true) w = (w, t1, inr s1)
    /\ is_recording s1 = true
    /\ loop s0 (Got c true :: body) w
       = (w, t1,
          inr {| pre_buffer := push_all (pre_buffer s0) (c :: chunks_of body);
                 recording_buffer := recording_buffer s1 ++ chunks_of body;
                 is_recording := true;
                 silence_chunks := silence_streak 0 body |}).
Proof.
  intros H.
  assert (S1 : exists t1 s1,
             step s0 (Got c true) w = (w, t1, inr s1)
             /\ is_recording s1 = true /\ silence_chunks s1 = 0%Z
             /\ pre_buffer s1 = deque_append (pre_buffer s0) c).
  { destruct (is_recording s0) eqn:R.
    - rewrite step_recording_speech by exact R. eexists _, _. repeat split.
    - rewrite step_onset by exact R. eexists _, _. repeat split. }
  destruct S1 as (t1 & s1 & E & R1 & Z1 & P1).
  exists t1, s1. split; [exact E |]. split; [exact R1 |].
  cbn [run_loop]. unfold bind. rewrite E.
  rewrite loop_no_finalize by (try exact R1; rewrite Z1; exact H).
  rewrite Z1, P1, app_nil_r. reflexivity.
Qed.

(** X4. Whenever an iteration starts in Recording, the silence counter is
    the number of silence chunks received since the last speech chunk, and
    that number is below 27. *)
Theorem counter_is_streak
        (polls : list poll) (w w' : World) (t : list event) (s : VoiceTyping) :
  loop init polls w = (w', t, inr s) ->
  is_recording s = true ->
  silence_chunks s = silence_streak 0 polls
  /\ (0 <= silence_streak 0 polls < 27)%Z.
Proof.
  intros H R.
  assert (G : forall polls s n w w' t s',
             (is_recording s = true -> silence_chunks s = n) ->
             loop s polls w = (w', t, inr s') ->
             is_recording s' = true ->
             silence_chunks s' = silence_streak n polls).
  { clear. induction polls as [| p polls IH]; intros s n w w' t s' J H R.
    - injection H as _ _ <-. exact (J R).
    - cbn [run_loop] in H. unfold bind in H.
      destruct (step s p w) as [[w1 t1] [e | s1]] eqn:E; [discriminate H |].
      destruct (loop s1 polls w1) as [[w2 t2] r] eqn:E2.
      injection H as _ _ ->.
      apply transition_of_step in E.
      cbn [silence_streak fold_left].
      apply (IH s1 (streak_step n p) w1 w2 t2 s'); [| exact E2 | exact R].
      destruct E as [a | a c0 Ra | a c0 Ra | a c0 Ra | a c0 Ra L | a c0 Ra L];
        cbn [is_recording silence_chunks set_pre_buffer idle_after streak_step];
        intros R1; try reflexivity; try congruence.
      + exact (J R1).
      + rewrite (J Ra). reflexivity. }
  assert (E : silence_chunks s = silence_streak 0 polls).
  { apply (G polls init 0%Z w w' t s); [reflexivity | exact H | exact R]. }
  split; [exact E |].
  pose proof H as I. apply loop_state_inv in I;
    [| exact (conj init_pre_buffer_inv init_loop_inv)].
  destruct I as [_ I]. unfold loop_inv in I. rewrite R in I. lia.
Qed.


(** X6. Polls that find the queue empty have no effect at all: the loop
    does on a sequence of polls what it does on the chunks and exceptions
    in it. *)
Theorem queue_timeouts_are_invisible (polls : list poll) (s : VoiceTyping) (w : World) :
  loop s polls w = loop s (filter (fun p => negb (is_queue_empty p)) polls) w.
Proof.
  revert s w. induction polls as [| p polls IH]; intros s w; [reflexivity |].
  destruct p as [| c sp | e].
  - rewrite loop_QueueEmpty. cbn [filter is_queue_empty negb]. apply IH.
  - cbn [filter is_queue_empty negb run_loop]. unfold bind.
    destruct (step s (Got c sp) w) as [[w1 t1] [e | s1]]; [reflexivity |].
    rewrite IH. reflexivity.
  - reflexivity.
Qed.

(** X7. [BUFFER_DURATION_SEC] caps nothing: as long as speech goes on the
    program stays in Recording and hands nothing over, and after 133 further
    speech chunks the recording buffer is longer than 4.0 s. *)
Theorem no_cap_on_recording
        (s0 : VoiceTyping) (c : chunk) (sp : list chunk) (w : World) :
  is_recording s0 = false ->
  (133 <= length sp)%nat ->
  exists s,
    loop s0 (Got c true :: spoken sp) w = (w, [Print MsgMic], inr s)
    /\ is_recording s = true
    /\ (BUFFER_DURATION_SEC
        < inject_Z (Z.of_nat (length (recording_buffer s)) * CHUNK_DURATION_MS) / 1000)%Q.
Proof.
  intros R L.
  pose proof (@loop_utterance_open _ model_transcribe subprocess_run language
                c sp [] s0 w R) as E.
  cbn [silent map length] in E. rewrite !app_nil_r in E.
  rewrite E by lia. eexists. split; [reflexivity |]. split; [reflexivity |].
  cbn [recording_buffer]. rewrite !length_app. cbn [length].
  unfold Qlt, BUFFER_DURATION_SEC, CHUNK_DURATION_MS. cbn. lia.
Qed.

(** X8. Whatever was received before, when a speech chunk arrives in Idle
    the recording starts with the last 50 chunks received, the speech chunk
    being the last of them, followed by the speech chunk once more. *)
Theorem onset_buffer_from_any_history
        (polls : list poll) (c : chunk) (w w' w1 : World) (t : list event)
        (s : VoiceTyping) :
  loop init polls w = (w', t, inr s) ->
  is_recording s = false ->
  exists s',
    step s (Got c true) w1 = (w1, [Print MsgMic], inr s')
    /\ is_recording s' = true
    /\ silence_chunks s' = 0%Z
    /\ recording_buffer s'
       = lastn PRE_BUFFER_MAXLEN (chunks_of polls ++ [c]) ++ [c]
    /\ recording_buffer s'
       = lastn 49 (chunks_of polls) ++ [c; c]
    /\ length (recording_buffer s')
       = (Nat.min (length (chunks_of polls)) 49 + 2)%nat.
Proof.
  intros H R. rewrite step_onset by exact R.
  eexists. split; [reflexivity |]. split; [reflexivity |]. split; [reflexivity |].
  cbn [recording_buffer].
  apply loop_pre_buffer in H. rewrite H, onset_items.
  split; [reflexivity |].
  rewrite PRE_BUFFER_MAXLEN_value, lastn_snoc, <- app_assoc.
  split; [reflexivity |].
  rewrite length_app, lastn_length. reflexivity.
Qed.

End Further.

(** ** The assembler, the device and the reader thread *)

Lemma frombuffer_int16_odd_error (n : nat) (buf : bytes) :
  length buf = (2 * n + 1)%nat ->
  frombuffer_int16 buf
  = inl (ValueError "buffer size must be a multiple of element size").
Proof.
  revert n. induction buf as [| x | x y buf IH] using list_pair_ind; intros n H.
  - simpl in H. lia.
  - reflexivity.
  - destruct n as [| n]; [simpl in H; lia |].
    cbn [frombuffer_int16]. rewrite (IH n) by (simpl in H; lia). reflexivity.
Qed.

Section Assembler.

Variable World : Type.
Variable model_transcribe : list Q -> string -> World -> World * (exn + list Segment).
Variable subprocess_run : list string -> World -> World * (exn + unit).
Variable language : string.

Local Abbreviation process := (process_audio model_transcribe subprocess_run language).
Local Abbreviation dispatch := (transcribe_and_type model_transcribe subprocess_run language).

(** X9. [process_audio] calls the transcription engine exactly when the
    buffer holds at least 8000 samples: below, it returns and leaves no
    event; from 8000 on, the first event is the call of the engine with
    all the samples and the language. For chunks of 480 samples this is
    at most 16 chunks against at least 17. *)
Theorem process_audio_threshold
        (audio_data : list chunk) (audio_np : list Q) (w : World) :
  to_audio_np audio_data = inr audio_np ->
  ((Z.of_nat (length audio_np) < 8000)%Z ->
   process audio_data w = (w, [], inr tt))
  /\ ((8000 <= Z.of_nat (length audio_np))%Z ->
      exists w' t r,
        process audio_data w = (w', Transcribe audio_np language :: t, r))
  /\ (Forall chunk_ok audio_data ->
      length audio_np = (480 * length audio_data)%nat
      /\ ((Z.of_nat (length audio_np) < 8000)%Z <-> (length audio_data <= 16)%nat)).
Proof.
  intros A. split; [| split].
  - intros L. apply process_audio_short with (audio_np := audio_np); [exact A |].
    rewrite too_short_spec. apply Z.ltb_lt. exact L.
  - intros L.
    rewrite (@process_audio_long _ model_transcribe subprocess_run language
               audio_data audio_np w A)
      by (rewrite too_short_spec; apply Z.ltb_ge; exact L).
    apply dispatch_calls_engine.
  - intros Ok. destruct (to_audio_np_ok Ok) as [A' L].
    rewrite A in A'. injection A' as ->.
    split; [exact L |]. rewrite L. lia.
Qed.

(** X10. A buffer with an odd number of bytes makes [process_audio] raise
    the ValueError of [np.frombuffer] before anything else happens; a
    buffer with an even number of bytes is read as half as many samples. *)
Theorem odd_buffer_raises (audio_data : list chunk) (w : World) :
  (Nat.even (length (bytes_join audio_data)) = false ->
   process audio_data w
   = (w, [], inl (ValueError "buffer size must be a multiple of element size")))
  /\ (Nat.even (length (bytes_join audio_data)) = true ->
      exists audio_np,
        to_audio_np audio_data = inr audio_np
        /\ (2 * length audio_np = length (bytes_join audio_data))%nat).
Proof.
  split; intros H.
  - assert (O : Nat.odd (length (bytes_join audio_data)) = true)
      by (rewrite <- Nat.negb_even, H; reflexivity).
    apply Nat.odd_spec in O. destruct O as [n O].
    apply process_audio_odd. unfold to_audio_np.
    rewrite (frombuffer_int16_odd_error n _ O). reflexivity.
  - apply Nat.even_spec in H. destruct H as [n H].
    destruct (frombuffer_int16_even n _ H) as (l & E & L).
    unfold to_audio_np. rewrite E. eexists. split; [reflexivity |].
    rewrite length_map, L, H. reflexivity.
Qed.

End Assembler.

(** X11. With a device that the argument parser accepts, the device passed
    on is cuda only when cuda was asked for and the probe returned a
    non-zero number of devices; otherwise it is cpu, with a line printed
    when this differs from what was asked. An exception of the probe that
    [except Exception] catches is contained, with its message in the line
    printed; a KeyboardInterrupt or a SystemExit of the probe leaves
    [main]. The compute type of [__init__] is float16 exactly for cuda. *)
Theorem device_falls_back_to_cpu (device : string) (probe : exn + Z) :
  device = "cpu"%string \/ device = "cuda"%string ->
  match detect_device device probe with
  | inr (d, out) =>
      (d = "cpu"%string \/ d = "cuda"%string)
      /\ (d = "cuda"%string <->
          device = "cuda"%string /\ exists n, probe = inr n /\ n <> 0%Z)
      /\ (compute_type d = "float16"%string <-> d = "cuda"%string)
      /\ (compute_type d = "int8"%string <-> d = "cpu"%string)
      /\ (d = device <-> out = [])
  | inl e =>
      device = "cuda"%string /\ probe = inl e /\ is_Exception e = false
  end
  /\ (device = "cpu"%string ->
      detect_device device probe = inr ("cpu"%string, []))
  /\ (forall n, device = "cuda"%string -> probe = inr n ->
        detect_device device probe
        = if (n =? 0)%Z
          then inr ("cpu"%string, ["CUDA not available, using CPU"%string])
          else inr ("cuda"%string, []))
  /\ (forall e, device = "cuda"%string -> probe = inl e ->
        match e with
        | KeyboardInterrupt | SystemExit => detect_device device probe = inl e
        | ValueError msg | Exception msg =>
            detect_device device probe
            = inr ("cpu"%string,
                   [("CUDA detection failed (" ++ msg ++ "), using CPU")%string])
        end).
Proof.
  intros D. split; [| split; [| split]].
  - destruct D as [-> | ->]; unfold detect_device;
      cbn [String.eqb Ascii.eqb Bool.eqb andb].
    + cbn. repeat split; intros; try discriminate; auto.
      match goal with H : _ /\ _ |- _ => destruct H as [H _]; discriminate H end.
    + destruct probe as [e | n].
      * destruct (is_Exception e) eqn:Ex.
        -- cbn. repeat split; intros; try discriminate; auto.
           match goal with
           | H : _ /\ _ |- _ => destruct H as (_ & n & H & _); discriminate H
           end.
        -- repeat split; auto.
      * destruct (Z.eqb_spec n 0) as [-> | N].
        -- cbn. repeat split; intros; try discriminate; auto.
           match goal with
           | H : _ /\ _ |- _ =>
               destruct H as (_ & n & H & N); injection H as <-; contradiction
           end.
        -- cbn. repeat split; intros; try discriminate; auto.
           exists n. split; [reflexivity | exact N].
  - intros ->. reflexivity.
  - intros n -> ->. unfold detect_device.
    cbn [String.eqb Ascii.eqb Bool.eqb andb]. reflexivity.
  - intros e -> ->. destruct e; reflexivity.
Qed.

(** X12. The reader thread puts on the queue exactly the chunks of the
    reads that returned, in the order read, for as long as it finds
    [self.running] set; a read that raises is skipped and the thread goes
    on; nothing already on the queue is lost. *)
Theorem reader_enqueues_successful_reads
        (audio_queue : list chunk) (turns : list (bool * (exn + chunk))) :
  audio_reader_thread audio_queue turns
  = audio_queue ++ successes (while_running turns).
Proof.
  revert audio_queue. induction turns as [| [running read] turns IH];
    intros audio_queue.
  - cbn. rewrite app_nil_r. reflexivity.
  - destruct running.
    + cbn [audio_reader_thread while_running]. rewrite IH.
      destruct read as [e | c]; cbn [reader_iteration successes flat_map app].
      * reflexivity.
      * rewrite <- app_assoc. reflexivity.
    + cbn. rewrite app_nil_r. reflexivity.
Qed.

(** ** The text that is typed *)

Lemma lstrip_no_lead (s : string) : starts_with_space (lstrip s) = false.
Proof.
  induction s as [| c s IH]; [reflexivity |].
  cbn [lstrip]. destruct (isspace c) eqn:E; [exact IH | cbn; exact E].
Qed.

Lemma rstrip_keeps_head (s : string) :
  starts_with_space s = false -> starts_with_space (rstrip s) = false.
Proof.
  destruct s as [| c s]; [reflexivity |].
  cbn [starts_with_space rstrip]. intros H.
  destruct (rstrip s); [rewrite H |]; cbn; exact H.
Qed.

Lemma rstrip_no_trail (s : string) : ends_with_space (rstrip s) = false.
Proof.
  induction s as [| c s IH]; [reflexivity |].
  cbn [rstrip]. destruct (rstrip s) as [| a r].
  - destruct (isspace c) eqn:E; [reflexivity | cbn; exact E].
  - exact IH.
Qed.

Lemma strip_trimmed (s : string) :
  starts_with_space (strip s) = false /\ ends_with_space (strip s) = false.
Proof.
  unfold strip. split.
  - apply rstrip_keeps_head, lstrip_no_lead.
  - apply rstrip_no_trail.
Qed.

Lemma starts_with_space_app (x y : string) :
  truthy x = true -> starts_with_space (x ++ y) = starts_with_space x.
Proof. destruct x; [discriminate | reflexivity]. Qed.

Lemma ends_with_space_app (x y : string) :
  truthy y = true -> ends_with_space (x ++ y) = ends_with_space y.
Proof.
  intros H. induction x as [| c x IH]; [reflexivity |].
  cbn [String.append ends_with_space].
  destruct (x ++ y)%string eqn:E.
  - destruct x; [cbn in E; subst y; discriminate H | discriminate E].
  - exact IH.
Qed.

Lemma truthy_app_r (x y : string) : truthy y = true -> truthy (x ++ y) = true.
Proof. destruct x; [auto | reflexivity]. Qed.

Lemma join_cons (sep x : string) (l : list string) :
  l <> [] -> join sep (x :: l) = (x ++ sep ++ join sep l)%string.
Proof. destruct l; [congruence | reflexivity]. Qed.

Lemma join_truthy (sep : string) (l : list string) :
  Forall (fun s => truthy s = true) l -> l <> [] -> truthy (join sep l) = true.
Proof.
  intros H N. destruct l as [| x l]; [congruence |].
  inversion H as [| ? ? Hx Hl]; subst.
  destruct l as [| y l]; [exact Hx |].
  rewrite join_cons by discriminate.
  destruct x; [discriminate Hx | reflexivity].
Qed.

Lemma join_trimmed (l : list string) :
  Forall (fun s => truthy s = true) l ->
  Forall (fun s => starts_with_space s = false /\ ends_with_space s = false) l ->
  starts_with_space (join " " l) = false /\ ends_with_space (join " " l) = false.
Proof.
  induction l as [| x l IH]; intros T S; [split; reflexivity |].
  inversion T as [| ? ? Tx Tl]; subst. inversion S as [| ? ? [Sx Ex] Sl]; subst.
  destruct l as [| y l]; [split; assumption |].
  rewrite join_cons by discriminate.
  destruct (IH Tl Sl) as [_ IHe].
  assert (Tj : truthy (join " " (y :: l)) = true)
    by (apply join_truthy; [exact Tl | discriminate]).
  split.
  - rewrite starts_with_space_app by exact Tx. exact Sx.
  - rewrite ends_with_space_app by (apply truthy_app_r; exact Tj).
    rewrite ends_with_space_app by exact Tj. exact IHe.
Qed.

Lemma string_app_assoc (x y z : string) :
  ((x ++ y) ++ z = x ++ (y ++ z))%string.
Proof. induction x as [| c x IH]; cbn; [reflexivity | rewrite IH; reflexivity]. Qed.

Lemma join_app (l1 l2 : list string) :
  l1 <> [] -> l2 <> [] ->
  join " " (l1 ++ l2) = (join " " l1 ++ " " ++ join " " l2)%string.
Proof.
  intros N1 N2. induction l1 as [| x l1 IH]; [congruence |].
  destruct l1 as [| y l1].
  - cbn [app]. apply join_cons. exact N2.
  - change ((x :: y :: l1) ++ l2) with (x :: ((y :: l1) ++ l2)).
    rewrite join_cons by discriminate.
    rewrite IH by discriminate.
    rewrite (@join_cons " " x (y :: l1)) by discriminate.
    rewrite !string_app_assoc. reflexivity.
Qed.

(** X13. The text handed to [type_text] neither begins nor ends with
    whitespace, and a segment whose text is only whitespace changes
    nothing in it. *)
Theorem typed_text_is_trimmed (segments : list Segment) :
  starts_with_space (full_text segments) = false
  /\ ends_with_space (full_text segments) = false
  /\ forall before blank after,
       segments = before ++ blank :: after ->
       truthy (strip (text blank)) = false ->
       full_text segments = full_text (before ++ after).
Proof.
  split; [| split].
  - apply join_trimmed.
    + apply Forall_map, Forall_forall. intros seg Hin.
      apply filter_In in Hin. tauto.
    + apply Forall_map, Forall_forall. intros seg _. apply strip_trimmed.
  - apply join_trimmed.
    + apply Forall_map, Forall_forall. intros seg Hin.
      apply filter_In in Hin. tauto.
    + apply Forall_map, Forall_forall. intros seg _. apply strip_trimmed.
  - intros before blank after -> B. unfold full_text.
    rewrite !filter_app. cbn [filter]. rewrite B. reflexivity.
Qed.

(** X14. The text of two runs of segments put together is the two texts
    joined by one space, or the one that is not empty. *)
Theorem full_text_app (a b : list Segment) :
  full_text (a ++ b)
  = match full_text a, full_text b with
    | EmptyString, y => y
    | x, EmptyString => x
    | x, y => (x ++ " " ++ y)%string
    end.
Proof.
  unfold full_text. rewrite filter_app, map_app.
  set (la := map (fun segment => strip (text segment))
                 (filter (fun segment => truthy (strip (text segment))) a)).
  set (lb := map (fun segment => strip (text segment))
                 (filter (fun segment => truthy (strip (text segment))) b)).
  assert (Ta : Forall (fun s => truthy s = true) la).
  { apply Forall_map, Forall_forall. intros seg Hin. apply filter_In in Hin. tauto. }
  assert (Tb : Forall (fun s => truthy s = true) lb).
  { apply Forall_map, Forall_forall. intros seg Hin. apply filter_In in Hin. tauto. }
  destruct la as [| xa la'] eqn:Ea.
  - cbn [app]. reflexivity.
  - destruct lb as [| xb lb'] eqn:Eb.
    + rewrite app_nil_r.
      assert (T : truthy (join " " (xa :: la')) = true)
        by (apply join_truthy; [exact Ta | discriminate]).
      destruct (join " " (xa :: la')); [discriminate T | reflexivity].
    + rewrite join_app by discriminate.
      assert (T1 : truthy (join " " (xa :: la')) = true)
        by (apply join_truthy; [exact Ta | discriminate]).
      assert (T2 : truthy (join " " (xb :: lb')) = true)
        by (apply join_truthy; [exact Tb | discriminate]).
      destruct (join " " (xa :: la')); [discriminate T1 |].
      destruct (join " " (xb :: lb')); [discriminate T2 | reflexivity].
Qed.

(** ** The trace of a run *)

Lemma marks_app (a b : list event) : marks (a ++ b) = marks a ++ marks b.
Proof. apply filter_app. Qed.

Lemma alternate_app (a b : list event) (r0 r1 : bool) :
  alternate r0 a = Some r1 -> alternate r0 (a ++ b) = alternate r1 b.
Proof.
  revert r0. induction a as [| ev a IH]; intros r0 H.
  - injection H as <-. reflexivity.
  - destruct ev as [m | | | | |]; try discriminate H.
    destruct m; try discriminate H; destruct r0; try discriminate H;
      cbn [app alternate] in *; apply IH; exact H.
Qed.

Section Traces.

Variable World : Type.
Variable model_transcribe : list Q -> string -> World -> World * (exn + list Segment).
Variable subprocess_run : list string -> World -> World * (exn + unit).
Variable language : string.

Local Abbreviation step := (loop_iteration model_transcribe subprocess_run language).
Local Abbreviation loop := (run_loop model_transcribe subprocess_run language).
Local Abbreviation process := (process_audio model_transcribe subprocess_run language).
Local Abbreviation dispatch := (transcribe_and_type model_transcribe subprocess_run language).
Local Abbreviation typing := (type_text subprocess_run).

Lemma dispatch_trace (audio_np : list Q) (w w' : World) (t : list event)
      (r : exn + unit) :
  dispatch audio_np w = (w', t, r) ->
  marks t = [] /\ length (filter is_transcribe t) = 1%nat.
Proof.
  intros H.
  destruct (model_transcribe audio_np language w) as [w1 [e | segments]] eqn:E.
  - erewrite dispatch_engine_raises in H by exact E.
    injection H as _ <- _. split; reflexivity.
  - erewrite dispatch_engine_returns in H by exact E.
    destruct (truthy (full_text segments)).
    + rewrite type_text_cases in H. cbv zeta in H.
      destruct (subprocess_run _ w1) as [w2 [e | []]].
      * destruct (subprocess_run _ w2) as [w3 [e' | []]];
          injection H as _ <- _; split; reflexivity.
      * injection H as _ <- _. split; reflexivity.
    + injection H as _ <- _. split; reflexivity.
Qed.

Lemma process_trace (audio_data : list chunk) (w w' : World) (t : list event)
      (r : exn + unit) :
  process audio_data w = (w', t, r) ->
  marks t = [] /\ (length (filter is_transcribe t) <= 1)%nat.
Proof.
  intros H.
  destruct (to_audio_np audio_data) as [e | audio_np] eqn:A.
  - rewrite (@process_audio_odd _ model_transcribe subprocess_run language
               audio_data e w A) in H.
    injection H as _ <- _. split; [reflexivity | cbn; lia].
  - destruct (too_short audio_np) eqn:S.
    + rewrite (@process_audio_short _ model_transcribe subprocess_run language
                 audio_data audio_np w A S) in H.
      injection H as _ <- _. split; [reflexivity | cbn; lia].
    + rewrite (@process_audio_long _ model_transcribe subprocess_run language
                 audio_data audio_np w A S) in H.
      apply dispatch_trace in H. destruct H as [M T]. split; [exact M | lia].
Qed.

(** The marks of one iteration. *)
Lemma step_marks (s : VoiceTyping) (p : poll) (w w' : World) (t : list event)
      (r : exn + VoiceTyping) :
  step s p w = (w', t, r) ->
  exists b,
    alternate (is_recording s) (marks t) = Some b
    /\ forall s', r = inr s' -> is_recording s' = b.
Proof.
  intros H. destruct p as [| c sp | e].
  - injection H as _ <- <-. exists (is_recording s). split; [reflexivity |].
    intros s' E. injection E as <-. reflexivity.
  - destruct sp, (is_recording s) eqn:R.
    + rewrite step_recording_speech in H by exact R.
      injection H as _ <- <-. exists true. split; [reflexivity |].
      intros s' E. injection E as <-. reflexivity.
    + rewrite step_onset in H by exact R.
      injection H as _ <- <-. exists true. split; [reflexivity |].
      intros s' E. injection E as <-. reflexivity.
    + destruct (Z.lt_ge_cases (silence_chunks s + 1) 27) as [L | L].
      * rewrite step_recording_silence in H by assumption.
        injection H as _ <- <-. exists true. split; [reflexivity |].
        intros s' E. injection E as <-. reflexivity.
      * rewrite step_finalize in H by assumption.
        unfold bind, emit, ret in H.
        destruct (process (recording_buffer s ++ [c]) w) as [[w1 t1] r1] eqn:P.
        apply process_trace in P. destruct P as [M _].
        exists false.
        destruct r1 as [e | []]; injection H as _ <- <-.
        -- cbn [app marks filter is_mark]. fold (marks t1). rewrite M.
           split; [reflexivity | discriminate].
        -- cbn [app marks filter is_mark]. rewrite filter_app. fold (marks t1).
           rewrite M. split; [reflexivity |].
           intros s' E. injection E as <-. reflexivity.
    + rewrite step_idle_silence in H by exact R.
      injection H as _ <- <-. exists false. split; [reflexivity |].
      intros s' E. injection E as <-. exact R.
  - injection H as _ <- <-. exists (is_recording s). split; [reflexivity |].
    discriminate.
Qed.

Lemma loop_marks (polls : list poll) (s : VoiceTyping) (w w' : World)
      (t : list event) (r : exn + VoiceTyping) :
  loop s polls w = (w', t, r) ->
  exists b,
    alternate (is_recording s) (marks t) = Some b
    /\ forall s', r = inr s' -> is_recording s' = b.
Proof.
  revert s w w' t r. induction polls as [| p polls IH]; intros s w w' t r H.
  - injection H as _ <- <-. exists (is_recording s). split; [reflexivity |].
    intros s' E. injection E as <-. reflexivity.
  - cbn [run_loop] in H. unfold bind in H.
    destruct (step s p w) as [[w1 t1] [e | s1]] eqn:E.
    + injection H as _ <- <-.
      destruct (step_marks _ _ _ E) as (b & A & _).
      exists b. split; [exact A | discriminate].
    + destruct (loop s1 polls w1) as [[w2 t2] r2] eqn:E2.
      injection H as _ <- <-.
      destruct (step_marks _ _ _ E) as (b1 & A1 & B1).
      destruct (IH _ _ _ _ _ E2) as (b2 & A2 & B2).
      exists b2. split; [| exact B2].
      rewrite marks_app, (@alternate_app _ (marks t2) _ _ A1), <- (B1 s1 eq_refl). exact A2.
Qed.

(** X15. In every run, completed or left by an exception, the onset marks
    and the hand-over marks alternate, starting with an onset mark: no
    recording starts inside a recording and nothing is handed over
    outside one. A run that returns is in Recording exactly when its last
    mark is an onset mark. *)
Theorem onsets_and_handovers_alternate
        (polls : list poll) (w w' : World) (t : list event)
        (r : exn + VoiceTyping) :
  loop init polls w = (w', t, r) ->
  exists b,
    alternate false (marks t) = Some b
    /\ forall s, r = inr s -> is_recording s = b.
Proof. intros H. exact (loop_marks _ _ _ H). Qed.

(** At the hand-over the buffer is long enough for the engine. *)
Lemma finalize_dispatches (s : VoiceTyping) (c : chunk) :
  loop_inv s -> chunks_inv s -> chunk_ok c ->
  is_recording s = true ->
  (27 <= silence_chunks s + 1)%Z ->
  exists audio_np,
    forall w, process (recording_buffer s ++ [c]) w = dispatch audio_np w.
Proof.
  intros I [_ Cr] Hc R L27. unfold loop_inv in I. rewrite R in I.
  assert (Cb : Forall chunk_ok (recording_buffer s ++ [c])).
  { apply Forall_app. split; [exact Cr | repeat constructor; exact Hc]. }
  destruct (to_audio_np_ok Cb) as [A L].
  eexists. intros w. apply process_audio_long; [exact A |].
  rewrite too_short_spec, L, length_app. cbn [length]. apply Z.ltb_ge. lia.
Qed.

Lemma step_counts (s : VoiceTyping) (p : poll) (w w' : World) (t : list event)
      (r : exn + VoiceTyping) :
  state_inv s -> chunks_inv s -> poll_ok p ->
  step s p w = (w', t, r) ->
  length (filter is_transcribe t) = length (filter is_processing t).
Proof.
  intros [Ip Il] Ic Hp H. destruct p as [| c sp | e].
  - injection H as _ <- _. reflexivity.
  - destruct sp, (is_recording s) eqn:R.
    + rewrite step_recording_speech in H by exact R.
      injection H as _ <- _. reflexivity.
    + rewrite step_onset in H by exact R.
      injection H as _ <- _. reflexivity.
    + destruct (Z.lt_ge_cases (silence_chunks s + 1) 27) as [L | L].
      * rewrite step_recording_silence in H by assumption.
        injection H as _ <- _. reflexivity.
      * rewrite step_finalize in H by assumption.
        destruct (@finalize_dispatches s c Il Ic Hp R L) as (a & D).
        unfold bind, emit, ret in H. rewrite D in H.
        destruct (dispatch a w) as [[w1 t1] r1] eqn:P.
        pose proof P as P'. apply dispatch_trace in P. destruct P as [M T].
        assert (NP : filter is_processing t1 = []).
        { assert (G : forall l, marks l = [] -> filter is_processing l = []).
          { clear. induction l as [| ev l IHl]; [reflexivity |].
            unfold marks. cbn [filter].
            destruct ev as [m | | | | |]; try (cbn; exact IHl).
            destruct m; cbn; try exact IHl; discriminate. }
          apply G. exact M. }
        destruct r1 as [e | []]; injection H as _ <- _;
          cbn [app filter is_transcribe is_processing length];
          rewrite ?filter_app, ?length_app, ?NP, ?T; cbn; lia.
    + rewrite step_idle_silence in H by exact R.
      injection H as _ <- _. reflexivity.
  - injection H as _ <- _. reflexivity.
Qed.

(** X16. When every chunk has 480 samples, each hand-over of a run calls
    the transcription engine exactly once: the trace has as many calls of
    the engine as hand-over marks, also when the run is left by an
    exception. *)
Theorem every_handover_calls_the_engine
        (polls : list poll) (w w' : World) (t : list event)
        (r : exn + VoiceTyping) :
  Forall poll_ok polls ->
  loop init polls w = (w', t, r) ->
  length (filter is_transcribe t) = length (filter is_processing t).
Proof.
  intros Ok H.
  assert (G : forall polls s w w' t r,
             state_inv s -> chunks_inv s -> Forall poll_ok polls ->
             loop s polls w = (w', t, r) ->
             length (filter is_transcribe t) = length (filter is_processing t)).
  { clear. induction polls as [| p polls IH]; intros s w w' t r I C Ok H.
    - injection H as _ <- _. reflexivity.
    - inversion Ok as [| ? ? Hp Ok']; subst.
      cbn [run_loop] in H. unfold bind in H.
      destruct (step s p w) as [[w1 t1] [e | s1]] eqn:E.
      + injection H as _ <- _. exact (@step_counts _ _ _ _ _ _ I C Hp E).
      + destruct (loop s1 polls w1) as [[w2 t2] r2] eqn:E2.
        injection H as _ <- _.
        pose proof (@step_counts _ _ _ _ _ _ I C Hp E) as N1.
        pose proof E as T. apply transition_of_step in T.
        destruct I as [Ip Il].
        assert (I1 : state_inv s1).
        { split; [exact (transition_pre_buffer_inv T Ip)
                 | exact (transition_loop_inv T Ip Il)]. }
        assert (C1 : chunks_inv s1) by exact (transition_chunks_inv T Hp Ip C).
        pose proof (IH s1 w1 w2 t2 r2 I1 C1 Ok' E2) as N2.
        rewrite !filter_app, !length_app, N1, N2. reflexivity. }
  apply (G polls init w w' t r); [| | exact Ok | exact H].
  - exact (conj init_pre_buffer_inv init_loop_inv).
  - exact init_chunks_inv.
Qed.

End Traces.

Section Idle.

Variable World : Type.
Variable model_transcribe : list Q -> string -> World -> World * (exn + list Segment).
Variable subprocess_run : list string -> World -> World * (exn + unit).
Variable language : string.

Local Abbreviation loop := (run_loop model_transcribe subprocess_run language).

(** X17. In Idle the program remembers nothing but the last 50 chunks: two
    histories that end in Idle with the same last 50 chunks end in the same
    state, so that whatever comes next is treated alike. *)
Theorem idle_state_is_last_50_chunks
        (h1 h2 : list poll) (w1 w1' w2 w2' : World) (t1 t2 : list event)
        (s1 s2 : VoiceTyping) :
  loop init h1 w1 = (w1', t1, inr s1) ->
  loop init h2 w2 = (w2', t2, inr s2) ->
  is_recording s1 = false ->
  is_recording s2 = false ->
  lastn PRE_BUFFER_MAXLEN (chunks_of h1) = lastn PRE_BUFFER_MAXLEN (chunks_of h2) ->
  s1 = s2
  /\ s1 = set_pre_buffer init
            (Deque PRE_BUFFER_MAXLEN (lastn PRE_BUFFER_MAXLEN (chunks_of h1))).
Proof.
  intros H1 H2 R1 R2 E.
  assert (G : forall h w w' t s,
             loop init h w = (w', t, inr s) -> is_recording s = false ->
             s = set_pre_buffer init
                   (Deque PRE_BUFFER_MAXLEN (lastn PRE_BUFFER_MAXLEN (chunks_of h)))).
  { clear. intros h w w' t s H R.
    pose proof H as I. apply loop_state_inv in I;
      [| exact (conj init_pre_buffer_inv init_loop_inv)].
    destruct I as [_ I]. unfold loop_inv in I. rewrite R in I.
    destruct I as [B Z0].
    apply loop_pre_buffer in H.
    assert (It : items (pre_buffer s) = lastn PRE_BUFFER_MAXLEN (chunks_of h)).
    { rewrite H, push_all_items by (cbn; lia). reflexivity. }
    assert (Mx : maxlen (pre_buffer s) = PRE_BUFFER_MAXLEN).
    { rewrite H, push_all_maxlen. reflexivity. }
    destruct s as [[m it] b r n]. cbn in *. subst. reflexivity. }
  pose proof (G _ _ _ _ _ H1 R1) as E1.
  pose proof (G _ _ _ _ _ H2 R2) as E2.
  split; [| exact E1]. rewrite E1, E2, E. reflexivity.
Qed.

End Idle.

(** ** The further properties at concrete inputs *)

Lemma run_always_cleans_up_witness :
  run Demo.engine_returns Demo.tool_works "en"
      (Demo.open_utterance ++ [Interrupt SystemExit]) 0%nat
  = (0%nat,
     [Print MsgBanner; Print MsgMic;
      StopStream; CloseStream; Terminate; Print MsgStopped],
     inl SystemExit).
Proof.
  assert (H : run_loop Demo.engine_returns Demo.tool_works "en" init
                (Demo.open_utterance ++ [Interrupt SystemExit]) 0%nat
              = (0%nat, [Print MsgMic], inl SystemExit))
    by (vm_compute; reflexivity).
  exact (@run_always_cleans_up _ _ _ _ _ _ _ _ _ H).
Defined.

Lemma recording_appends_every_chunk_witness :
  exists t1 s1,
    loop_iteration Demo.engine_returns Demo.tool_works "en" init
                   (Got (Demo.tone 200) true) 0%nat
    = (0%nat, t1, inr s1)
    /\ is_recording s1 = true
    /\ run_loop Demo.engine_returns Demo.tool_works "en" init
                (Got (Demo.tone 200) true
                 :: silent (Demo.tones 0 20) ++ spoken (Demo.tones 20 2)
                    ++ silent (Demo.tones 30 26)) 0%nat
       = (0%nat, t1,
          inr {| pre_buffer :=
                   push_all (pre_buffer init)
                     (Demo.tone 200
                      :: chunks_of (silent (Demo.tones 0 20)
                                    ++ spoken (Demo.tones 20 2)
                                    ++ silent (Demo.tones 30 26)));
                 recording_buffer :=
                   recording_buffer s1
                   ++ chunks_of (silent (Demo.tones 0 20)
                                 ++ spoken (Demo.tones 20 2)
                                 ++ silent (Demo.tones 30 26));
                 is_recording := true;
                 silence_chunks :=
                   silence_streak 0
                     (silent (Demo.tones 0 20) ++ spoken (Demo.tones 20 2)
                      ++ silent (Demo.tones 30 26)) |}).
Proof.
  apply (@recording_appends_every_chunk nat Demo.engine_returns Demo.tool_works
           "en"%string init (Demo.tone 200)).
  vm_compute. reflexivity.
Defined.

Lemma counter_is_streak_witness :
  silence_chunks Demo.recording_26 = silence_streak 0 Demo.open_utterance
  /\ (0 <= silence_streak 0 Demo.open_utterance < 27)%Z.
Proof.
  assert (H : run_loop Demo.engine_returns Demo.tool_works "en" init
                Demo.open_utterance 0%nat
              = (0%nat, [Print MsgMic], inr Demo.recording_26))
    by (vm_compute; reflexivity).
  exact (@counter_is_streak _ _ _ _ _ _ _ _ _ H eq_refl).
Defined.


Lemma no_cap_on_recording_witness :
  exists s,
    run_loop Demo.engine_returns Demo.tool_works "en" init
             (Got (Demo.tone 200) true :: spoken (Demo.tones 0 133)) 0%nat
    = (0%nat, [Print MsgMic], inr s)
    /\ is_recording s = true
    /\ (BUFFER_DURATION_SEC
        < inject_Z (Z.of_nat (length (recording_buffer s)) * CHUNK_DURATION_MS)
          / 1000)%Q.
Proof.
  apply (@no_cap_on_recording nat Demo.engine_returns Demo.tool_works "en"%string
           init (Demo.tone 200) (Demo.tones 0 133) 0%nat).
  - reflexivity.
  - vm_compute. apply le_n.
Defined.

Lemma onset_buffer_from_any_history_witness :
  exists s',
    loop_iteration Demo.engine_returns Demo.tool_works "en"
      (set_pre_buffer init (push_all (pre_buffer init) (Demo.tones 0 60)))
      (Got (Demo.tone 200) true) 7%nat
    = (7%nat, [Print MsgMic], inr s')
    /\ recording_buffer s'
       = lastn 49 (chunks_of (silent (Demo.tones 0 60)))
         ++ [Demo.tone 200; Demo.tone 200].
Proof.
  assert (H : run_loop Demo.engine_returns Demo.tool_works "en" init
                (silent (Demo.tones 0 60)) 0%nat
              = (0%nat, [],
                 inr (set_pre_buffer init
                        (push_all (pre_buffer init) (Demo.tones 0 60)))))
    by (vm_compute; reflexivity).
  destruct (@onset_buffer_from_any_history _ _ _ _ _ (Demo.tone 200) _ _ 7%nat
              _ _ H eq_refl)
    as (s' & A & _ & _ & _ & B & _).
  exists s'. split; [exact A | exact B].
Defined.

Lemma process_audio_threshold_witness :
  exists audio_np,
    to_audio_np [Demo.tone 1; Demo.tone 2] = inr audio_np
    /\ process_audio Demo.engine_returns Demo.tool_works "en"
                     [Demo.tone 1; Demo.tone 2] 0%nat
       = (0%nat, [], inr tt).
Proof.
  eexists. split; [vm_compute; reflexivity |].
  refine (proj1 (@process_audio_threshold nat Demo.engine_returns Demo.tool_works
                   "en"%string [Demo.tone 1; Demo.tone 2] _ 0%nat _) _);
    vm_compute; reflexivity.
Defined.

Lemma device_falls_back_to_cpu_witness :
  detect_device "cuda" (inl KeyboardInterrupt) = inl KeyboardInterrupt
  /\ detect_device "cuda" (inl SystemExit) = inl SystemExit
  /\ detect_device "cuda" (inl (Exception "No module named ctranslate2"))
     = inr ("cpu"%string,
            ["CUDA detection failed (No module named ctranslate2), using CPU"%string])
  /\ detect_device "cuda" (inr 0%Z)
     = inr ("cpu"%string, ["CUDA not available, using CPU"%string])
  /\ detect_device "cuda" (inr 2%Z) = inr ("cuda"%string, []).
Proof.
  split; [| split; [| split; [| split]]].
  - exact (proj2 (proj2 (proj2
             (@device_falls_back_to_cpu "cuda" (inl KeyboardInterrupt)
                (or_intror eq_refl))))
             KeyboardInterrupt eq_refl eq_refl).
  - exact (proj2 (proj2 (proj2
             (@device_falls_back_to_cpu "cuda" (inl SystemExit)
                (or_intror eq_refl))))
             SystemExit eq_refl eq_refl).
  - exact (proj2 (proj2 (proj2
             (@device_falls_back_to_cpu "cuda"
                (inl (Exception "No module named ctranslate2"))
                (or_intror eq_refl))))
             (Exception "No module named ctranslate2") eq_refl eq_refl).
  - exact (proj1 (proj2 (proj2
             (@device_falls_back_to_cpu "cuda" (inr 0%Z) (or_intror eq_refl))))
             0%Z eq_refl eq_refl).
  - exact (proj1 (proj2 (proj2
             (@device_falls_back_to_cpu "cuda" (inr 2%Z) (or_intror eq_refl))))
             2%Z eq_refl eq_refl).
Defined.

Lemma onsets_and_handovers_alternate_witness :
  exists b,
    alternate false (marks [Print MsgMic]) = Some b
    /\ forall s, @inr exn VoiceTyping Demo.recording_26 = inr s ->
                 is_recording s = b.
Proof.
  assert (H : run_loop Demo.engine_returns Demo.tool_works "en" init
                Demo.open_utterance 0%nat
              = (0%nat, [Print MsgMic], inr Demo.recording_26))
    by (vm_compute; reflexivity).
  exact (@onsets_and_handovers_alternate _ _ _ _ _ _ _ _ _ H).
Defined.

Lemma every_handover_calls_the_engine_witness :
  exists w' t r,
    run_loop Demo.engine_raises Demo.tool_works "en" init
             (Demo.utterance ++ Demo.utterance) 0%nat
    = (w', t, r)
    /\ length (filter is_transcribe t) = length (filter is_processing t).
Proof.
  destruct (run_loop Demo.engine_raises Demo.tool_works "en" init
              (Demo.utterance ++ Demo.utterance) 0%nat)
    as [[w' t] r] eqn:E.
  exists w', t, r. split; [reflexivity |].
  refine (@every_handover_calls_the_engine _ _ _ _ _ _ _ _ _ _ E).
  apply Forall_app. split; apply utterance_ok.
Defined.

Lemma idle_state_is_last_50_chunks_witness :
  set_pre_buffer init (push_all (pre_buffer init) (Demo.tones 0 60))
  = set_pre_buffer init (push_all (pre_buffer init) (Demo.tones 10 50)).
Proof.
  assert (H1 : run_loop Demo.engine_returns Demo.tool_works "en" init
                 (silent (Demo.tones 0 60)) 0%nat
               = (0%nat, [],
                  inr (set_pre_buffer init
                         (push_all (pre_buffer init) (Demo.tones 0 60)))))
    by (vm_compute; reflexivity).
  assert (H2 : run_loop Demo.engine_returns Demo.tool_works "en" init
                 (silent (Demo.tones 10 50)) 0%nat
               = (0%nat, [],
                  inr (set_pre_buffer init
                         (push_all (pre_buffer init) (Demo.tones 10 50)))))
    by (vm_compute; reflexivity).
  refine (proj1 (@idle_state_is_last_50_chunks _ _ _ _ _ _ _ _ _ _ _ _ _ _
                   H1 H2 eq_refl eq_refl _)).
  vm_compute. reflexivity.
Defined.
